(** * Carson's earth-return correction integral: a shallow embedding of
      [Carson_integral.cxx] and the properties of its table builders,
      series evaluators and reference integrator.

    Numbers are modelled as the program has them.  A C++ [double] is an
    IEEE-754 binary64 value, i.e. Rocq's primitive [float]; [+ - * /] and
    [sqrt] are the correctly rounded IEEE operations.  A C++ [int] is a [Z]
    (no [int] expression of the program leaves the range [-2^31, 2^31):
    the largest one is [101*101]).  The transcendental functions of
    [<cmath>] and [<complex>] are not IEEE operations: they are taken as a
    parameter, the record [libm]. *)

From Stdlib Require Import ZArith Floats Lia List String Ascii Bool.
From stdpp Require Import base list.
Import ListNotations.

Set Warnings "-inexact-float".
Open Scope Z_scope.

(** ** Numbers *)

#[global] Instance float_inhabited : Inhabited float := populate 0%float.

(** Conversion [int -> double]; exact for every [int]. *)
Definition d_of_int (z : Z) : float :=
  if z <? 0 then (- of_uint63 (Uint63.of_Z (- z)))%float
  else of_uint63 (Uint63.of_Z z).

(** [std::complex<double>] with the operations the program uses, as
    libstdc++ defines them (mixed operations act on the scalar part by
    part). *)
Record complex := Cx { real : float; imag : float }.

Definition cx_add (x y : complex) : complex :=
  Cx (real x + real y) (imag x + imag y).
(** [double + complex]: the scalar is added to the real part. *)
Definition d_add_cx (t : float) (x : complex) : complex :=
  Cx (real x + t) (imag x).
(** [complex - double] *)
Definition cx_sub_d (x : complex) (t : float) : complex :=
  Cx (real x - t) (imag x).
(** [complex * double] and [double * complex] *)
Definition cx_mul_d (x : complex) (t : float) : complex :=
  Cx (real x * t) (imag x * t).
Definition d_mul_cx (t : float) (x : complex) : complex :=
  Cx (real x * t) (imag x * t).

(** The functions of the C library the program calls. [m_pow] is
    [pow(double, double)]; the program calls it with an [int] exponent,
    which C++ promotes to [double]. *)
Record libm := Libm {
  m_atan : float -> float;
  m_exp : float -> float;
  m_log : float -> float;
  m_cos : float -> float;
  m_sin : float -> float;
  m_atan2 : float -> float -> float;
  m_pow : float -> float -> float;
  m_csqrt : complex -> complex
}.

(** ** Loops *)

(** [for (int i = lo; i < hi; i += step) s = body(i, s);] *)
Fixpoint for_loop {S : Type} (fuel : nat) (i hi step : Z)
    (body : Z -> S -> S) (s : S) : S :=
  match fuel with
  | O => s
  | Datatypes.S k =>
      if i <? hi then for_loop k (i + step) hi step body (body i s) else s
  end.

(** The number of iterations of the loop above, for [step > 0]. *)
Definition trip_count (lo hi step : Z) : nat :=
  Z.to_nat ((hi - lo + step - 1) / step).

Definition for_range {S : Type} (lo hi step : Z)
    (body : Z -> S -> S) (s : S) : S :=
  for_loop (trip_count lo hi step) lo hi step body s.

(** ** Global tables *)

Inductive tbl := T_F | T_SI | T_PX | T_b | T_c | T_d
               | T_rp | T_rhp | T_cthp | T_sthp | T_ap.

#[global] Instance tbl_eq_dec : EqDecision tbl.
Proof. solve_decision. Defined.

Definition Nf : Z := 150.
Definition Nsi : Z := 101.
Definition Ne : Z := 50.
Definition Ns : Z := 8.

(** The global arrays. They have static storage: every entry is [0.0]
    when the program starts.  [assigned] is ghost state: the entries the
    program has stored to so far, latest first. *)
Record globals := Globals {
  F : list float;
  SI : list float;
  PX : list float;
  b : list float;
  c : list float;
  d : list float;
  assigned : list (tbl * Z)
}.

Definition zeros (n : Z) : list float := replicate (Z.to_nat n) 0%float.

Definition globals0 : globals :=
  Globals (zeros Nf) (zeros Nsi) (zeros (Nsi + 1))
          (zeros Ne) (zeros Ne) (zeros Ne) [].

Definition table (t : tbl) (g : globals) : list float :=
  match t with
  | T_F => F g | T_SI => SI g | T_PX => PX g
  | T_b => b g | T_c => c g | T_d => d g
  | _ => []
  end.

(** [l[n] = v;] on one array, and [t[i] = v;] on a global array. *)
Definition put (n : Z) (v : float) (l : list float) : list float :=
  <[Z.to_nat n := v]> l.

Definition store (t : tbl) (i : Z) (v : float) (g : globals) : globals :=
  let upd (l : list float) := put i v l in
  let a := (t, i) :: assigned g in
  match t with
  | T_F => Globals (upd (F g)) (SI g) (PX g) (b g) (c g) (d g) a
  | T_SI => Globals (F g) (upd (SI g)) (PX g) (b g) (c g) (d g) a
  | T_PX => Globals (F g) (SI g) (upd (PX g)) (b g) (c g) (d g) a
  | T_b => Globals (F g) (SI g) (PX g) (upd (b g)) (c g) (d g) a
  | T_c => Globals (F g) (SI g) (PX g) (b g) (upd (c g)) (d g) a
  | T_d => Globals (F g) (SI g) (PX g) (b g) (c g) (upd (d g)) a
  | _ => g
  end.

(** [t[i]] on an array, for an index known to be in range. *)
Definition at_ (l : list float) (i : Z) : float := l !!! Z.to_nat i.
Notation "l .[ i ]" := (at_ l i%Z)
  (at level 1, left associativity, format "l .[ i ]").

(** ** Table Builder *)

Definition sum_inv (m : Z) : float :=
  for_range 2 (m + 1) 1
    (fun mx sum => sum + 1 / d_of_int mx)%float
    (1 - 1 / (2 * d_of_int m))%float.

Definition prod_xsq (m : Z) : float :=
  for_range 1 (Z.quot m 2) 1
    (fun mx prod => prod * d_of_int ((2 * mx + 1) * (2 * mx + 1)))%float
    (d_of_int m).

Definition Factorials (g : globals) : globals :=
  let g := store T_F 0 1%float g in
  let g := for_range 1 Nf 1
             (fun n g => store T_F n (d_of_int n * at_ (F g) (n - 1))%float g) g in
  let g := for_range 2 Nsi 1 (fun n g => store T_SI n (sum_inv n) g) g in
  for_range 1 (Nsi + 1) 2 (fun n g => store T_PX n (prod_xsq n) g) g.

(** ** Effects: the output streams, [exit] and array reads *)

Inductive chan := Cout | Cerr.
Inductive tok := Str (s : string) | Chr (a : ascii) | Int (z : Z) | Dbl (x : float).
Definition event : Type := chan * tok.

(** How a call ends: it returns, the process is ended by [exit(code)], or
    an array is read outside its bounds (undefined behaviour in C++; the
    model stops there and names the array and the index). *)
Inductive result (A : Type) :=
  | Ok (a : A)
  | Exit (code : Z)
  | Fault (t : tbl) (i : Z).
Arguments Ok {A} a.
Arguments Exit {A} code.
Arguments Fault {A} t i.

(** A computation: the events it emits, in order, and how it ends. *)
Definition M (A : Type) : Type := list event * result A.

Definition ret {A} (a : A) : M A := ([], Ok a).

Definition bind {A B} (m : M A) (f : A -> M B) : M B :=
  match m with
  | (l, Ok a) => let '(l', r) := f a in (l ++ l', r)
  | (l, Exit code) => (l, Exit code)
  | (l, Fault t i) => (l, Fault t i)
  end.

Notation "x <- m ;; k" := (bind m (fun x => k))
  (at level 63, m at next level, right associativity).
Notation "m ;;; k" := (bind m (fun _ => k))
  (at level 63, right associativity).

Definition emit (ch : chan) (ts : list tok) : M unit :=
  (map (pair ch) ts, Ok tt).
Definition cerr := emit Cerr.
Definition cout := emit Cout.
Definition exit {A} (code : Z) : M A := ([], Exit code).

Definition sp : tok := Chr " ".
Definition nl : tok := Chr "010".

(** [l[i]] for an array [l] named [t], bounds checked. *)
Definition rd (t : tbl) (l : list float) (i : Z) : M float :=
  if (0 <=? i) && (i <? Z.of_nat (length l)) then ret (at_ l i)
  else ([], Fault t i).

(** [for (int i = lo; i < hi; i += step) body] for a body with effects. *)
Fixpoint for_m {S : Type} (fuel : nat) (i hi step : Z)
    (body : Z -> S -> M S) (s : S) : M S :=
  match fuel with
  | O => ret s
  | Datatypes.S k =>
      if i <? hi then s' <- body i s ;; for_m k (i + step) hi step body s'
      else ret s
  end.

Definition for_range_m {S : Type} (lo hi step : Z)
    (body : Z -> S -> M S) (s : S) : M S :=
  for_m (trip_count lo hi step) lo hi step body s.

(** ** Constants *)

Definition tworoot : float := sqrt 2.
Definition Euler : float := 0.577215664901532860606512.
Definition ci : complex := Cx 0 1.

Section Program.

Variable L : libm.

Definition pi : float := 4 * m_atan L 1.
Definition gamma_e : float := m_exp L Euler.

(** ** Coefficient Builder *)

(** The exponent of [-1.0] in the sign of [b[n]], and the one of the
    published formula, which the source keeps as a comment. *)
Definition sign_exponent (n : Z) : Z := Z.rem (Z.quot (n + 1) 2) 2.
Definition published_exponent (n : Z) : Z := Z.rem (Z.quot (n - 1) 4) 2.

Definition Coeffs_body (n : Z) (g : globals) : globals :=
  let nsign := m_pow L (-1) (d_of_int (sign_exponent n)) in
  let g := store T_b n
             (nsign * at_ (b g) (n - 2) / (d_of_int n * (d_of_int n + 2))) g in
  let g := store T_c n
             (at_ (c g) (n - 2) + 1 / d_of_int n + 1 / d_of_int (n + 2)) g in
  store T_d n (pi * at_ (b g) n / 4) g.

Definition Coeffs (g : globals) : globals :=
  let g := store T_b 1 (tworoot / 6) g in
  let g := store T_b 2 (1 / 16) g in
  let g := store T_c 2 1.3659315 g in
  let g := store T_d 2 (pi * at_ (b g) 2 / 4) g in
  for_range 3 Ne 1 Coeffs_body g.

(** ** Asymptotic Series Evaluator *)

(** The local tables of [J]: [rp], [rhp], [cthp], [sthp], 32 entries each. *)
Record jtabs := JTabs {
  rp : list float; rhp : list float; cthp : list float; sthp : list float
}.

Definition J_tables (r rh th : float) : jtabs :=
  for_range 0 32 1
    (fun n t =>
       JTabs (put n (m_pow L r (d_of_int n)) (rp t))
             (put n (m_pow L rh (d_of_int n)) (rhp t))
             (put n (m_cos L (d_of_int n * th)) (cthp t))
             (put n (m_sin L (d_of_int n * th)) (sthp t)))
    (JTabs (zeros 32) (zeros 32) (zeros 32) (zeros 32)).

(** The operands of one accumulation are read from left to right. *)

(** First loop: [s2] and [s2p]; state [(s2, s2p, nf, nsign)]. *)
Definition body_s2 (g : globals) (t : jtabs) (ns : Z)
    (st : float * float * Z * Z) : M (float * float * Z * Z) :=
  let '(s2, s2p, nf, nsign) := st in
  let np := 2 + 4 * ns in
  f0 <- rd T_F (F g) nf ;; f1 <- rd T_F (F g) (nf + 1) ;;
  x <- rd T_rhp (rhp t) np ;; y <- rd T_cthp (cthp t) np ;;
  let s2 := (s2 + d_of_int nsign * (1 / (f0 * f1)) * x * y)%float in
  f0 <- rd T_F (F g) nf ;; f1 <- rd T_F (F g) (nf + 1) ;;
  x <- rd T_rhp (rhp t) np ;; y <- rd T_sthp (sthp t) np ;;
  let s2p := (s2p + d_of_int nsign * (1 / (f0 * f1)) * x * y)%float in
  let nf := nf + 2 in
  let nsign := - nsign in
  if is_nan s2 || is_nan s2p then
    cerr [Str "2 2p : "; Int ns; sp; Int np; nl] ;;;
    x <- rd T_rhp (rhp t) np ;; y <- rd T_cthp (cthp t) np ;;
    z <- rd T_sthp (sthp t) np ;;
    f0 <- rd T_F (F g) nf ;; f1 <- rd T_F (F g) (nf + 1) ;;
    cerr [Dbl x; sp; Dbl y; sp; Dbl z; sp; Int nsign; sp; Int nf; sp;
          Dbl f0; sp; Dbl f1; sp; Dbl s2; sp; Dbl s2p; nl] ;;;
    exit 0
  else ret (s2, s2p, nf, nsign).

(** Second loop: [s4] and [s4p]; state [(s4, s4p, nf, nsign)]. *)
Definition body_s4 (g : globals) (t : jtabs) (ns : Z)
    (st : float * float * Z * Z) : M (float * float * Z * Z) :=
  let '(s4, s4p, nf, nsign) := st in
  let np := 4 + 4 * ns in
  f0 <- rd T_F (F g) nf ;; f1 <- rd T_F (F g) (nf + 1) ;;
  x <- rd T_rhp (rhp t) np ;; y <- rd T_cthp (cthp t) np ;;
  let s4 := (s4 + d_of_int nsign * (1 / (f0 * f1)) * x * y)%float in
  f0 <- rd T_F (F g) nf ;; f1 <- rd T_F (F g) (nf + 1) ;;
  x <- rd T_rhp (rhp t) np ;; y <- rd T_sthp (sthp t) np ;;
  let s4p := (s4p + d_of_int nsign * (1 / (f0 * f1)) * x * y)%float in
  let nf := nf + 2 in
  let nsign := - nsign in
  if is_nan s4 || is_nan s4p then
    cerr [Str "4 4p : "; Int ns; sp; Int np; nl] ;;; exit 0
  else ret (s4, s4p, nf, nsign).

(** Third and fourth loop: [sg1] (from [np = 1], [nden = 3]) and [sg3]
    (from [np = 3], [nden = 5]); state [(sg, nsign, nden)]. *)
Definition body_g13 (label : string) (np0 : Z) (g : globals) (t : jtabs)
    (ns : Z) (st : float * Z * Z) : M (float * Z * Z) :=
  let '(sg, nsign, nden) := st in
  let np := np0 + 4 * ns in
  den <- rd T_PX (PX g) nden ;;
  x <- rd T_rp (rp t) np ;; y <- rd T_cthp (cthp t) np ;;
  let sg := (sg + d_of_int nsign * x * y / den)%float in
  let nsign := - nsign in
  let nden := nden + 4 in
  if is_nan sg then cerr [Str label; Int ns; sp; Int np; nl] ;;; exit 0
  else ret (sg, nsign, nden).

Definition body_g1 := body_g13 "g1 : " 1.
Definition body_g3 := body_g13 "g3 : " 3.

(** Fifth and sixth loop: [sg2] (from [np = 2]) and [sg4] (from [np = 4]);
    state [(sg, nsign, nfrac, nf)]. *)
Definition body_g24 (label : string) (np0 : Z) (g : globals) (t : jtabs)
    (ns : Z) (st : float * Z * Z * Z) : M (float * Z * Z * Z) :=
  let '(sg, nsign, nfrac, nf) := st in
  let np := np0 + 4 * ns in
  num <- rd T_SI (SI g) nfrac ;;
  f0 <- rd T_F (F g) nf ;; f1 <- rd T_F (F g) (nf + 1) ;;
  x <- rd T_rhp (rhp t) np ;; y <- rd T_cthp (cthp t) np ;;
  let sg := (sg + d_of_int nsign * num * (1 / (f0 * f1)) * x * y)%float in
  let nsign := - nsign in
  let nfrac := nfrac + 2 in
  let nf := nf + 2 in
  if is_nan sg then cerr [Str label; Int ns; sp; Int np; nl] ;;; exit 0
  else ret (sg, nsign, nfrac, nf).

Definition body_g2 := body_g24 "g2 : " 2.
Definition body_g4 := body_g24 "g4 : " 4.

Definition J (g : globals) (p q : float) : M complex :=
  let r := sqrt (p * p + q * q) in
  let th := m_atan2 L q p in
  let rh := (0.5 * r)%float in
  let lnr := m_log L r in
  let t := J_tables r rh th in
  st <- for_range_m 0 Ns 1 (body_s2 g t) (0%float, 0%float, 1, 1) ;;
  let '(s2, s2p, _, _) := st in
  st <- for_range_m 0 Ns 1 (body_s4 g t) (0%float, 0%float, 2, 1) ;;
  let '(s4, s4p, _, _) := st in
  st <- for_range_m 0 Ns 1 (body_g1 g t) (0%float, 1, 3) ;;
  let '(sg1, _, _) := st in
  st <- for_range_m 0 Ns 1 (body_g3 g t) (0%float, 1, 5) ;;
  let '(sg3, _, _) := st in
  st <- for_range_m 0 Ns 1 (body_g2 g t) (0%float, 1, 2, 1) ;;
  let '(sg2, _, _, _) := st in
  st <- for_range_m 0 Ns 1 (body_g4 g t) (0%float, 1, 3, 2) ;;
  let '(sg4, _, _, _) := st in
  let lg := m_log L (2 / gamma_e) in
  let P := ((pi / 8) * (1 - s4) + 0.5 * (lg - lnr) * s2 + 0.5 * th * s2p
            - sg1 / tworoot + 0.5 * sg2 + sg3 / tworoot)%float in
  let Q := (0.25 + 0.5 * (lg - lnr) * (1 - s4) - 0.5 * th * s4p
            + sg1 / tworoot - (pi / 8) * s2 + sg3 / tworoot - 0.5 * sg4)%float in
  ret (Cx P Q).

(** ** EMTP Series Evaluator *)

(** The local tables of [Je]: [ap], [cthp], [sthp], 32 entries each. *)
Record etabs := ETabs {
  ap : list float; e_cthp : list float; e_sthp : list float
}.

Definition Je_tables_body (a th : float) (n : Z) (t : etabs) : M etabs :=
  let t := ETabs (put n (m_pow L a (d_of_int n)) (ap t))
                 (put n (m_cos L (d_of_int n * th)) (e_cthp t))
                 (put n (m_sin L (d_of_int n * th)) (e_sthp t)) in
  if is_nan (at_ (ap t) n) || is_nan (at_ (e_cthp t) n)
     || is_nan (at_ (e_sthp t) n)
  then cerr [Str "Je : "; Int n; sp; Dbl a; sp; Dbl (at_ (ap t) n); nl] ;;;
       ret t
  else ret t.

Definition Je_P (g : globals) (t : etabs) (th lna : float) : float :=
  let b := b g in let c := c g in let d := d g in
  let ap := ap t in let cthp := e_cthp t in let sthp := e_sthp t in
  (pi / 8
   - b.[1] * ap.[1] * cthp.[1]
   + b.[2] * ((c.[2] - lna) * ap.[2] * cthp.[2] + th * ap.[2] * sthp.[2])
   + b.[3] * ap.[3] * cthp.[3]
   - d.[4] * ap.[4] * cthp.[4]
   - b.[5] * ap.[5] * cthp.[5]
   + b.[6] * ((c.[6] - lna) * ap.[6] * cthp.[6] + th * ap.[6] * sthp.[6])
   + b.[7] * ap.[7] * cthp.[7]
   - d.[8] * ap.[8] * cthp.[8]
   - b.[9] * ap.[9] * cthp.[9]
   + b.[10] * ((c.[10] - lna) * ap.[10] * cthp.[10] + th * ap.[10] * sthp.[10])
   + b.[11] * ap.[11] * cthp.[11]
   - d.[12] * ap.[12] * cthp.[12]
   - b.[13] * ap.[13] * cthp.[13]
   + b.[14] * ((c.[14] - lna) * ap.[14] * cthp.[14] + th * ap.[14] * sthp.[14])
   + b.[15] * ap.[15] * cthp.[15]
   - d.[16] * ap.[16] * cthp.[16]
   - b.[17] * ap.[17] * cthp.[17]
   + b.[18] * ((c.[18] - lna) * ap.[18] * cthp.[18] + th * ap.[18] * sthp.[18])
   + b.[19] * ap.[19] * cthp.[19]
   - d.[20] * ap.[20] * cthp.[20]
   - b.[21] * ap.[21] * cthp.[21]
   + b.[22] * ((c.[22] - lna) * ap.[22] * cthp.[22] + th * ap.[22] * sthp.[22])
   + b.[23] * ap.[23] * cthp.[23]
   - d.[24] * ap.[24] * cthp.[24]
   - b.[25] * ap.[25] * cthp.[25])%float.

Definition Je_Q (g : globals) (t : etabs) (th lna : float) : float :=
  let b := b g in let c := c g in let d := d g in
  let ap := ap t in let cthp := e_cthp t in let sthp := e_sthp t in
  ((1 / 2) * (0.6159315 - lna)
   + b.[1] * ap.[1] * cthp.[1]
   - d.[2] * ap.[2] * cthp.[2]
   + b.[3] * ap.[3] * cthp.[3]
   - b.[4] * ((c.[4] - lna) * ap.[4] * cthp.[4] + th * ap.[4] * sthp.[4])
   + b.[5] * ap.[5] * cthp.[5]
   - d.[6] * ap.[6] * cthp.[6]
   + b.[7] * ap.[7] * cthp.[7]
   - b.[8] * ((c.[8] - lna) * ap.[8] * cthp.[8] + th * ap.[8] * sthp.[8])
   + b.[9] * ap.[9] * cthp.[9]
   - d.[10] * ap.[10] * cthp.[10]
   + b.[11] * ap.[11] * cthp.[11]
   - b.[12] * ((c.[12] - lna) * ap.[12] * cthp.[12] + th * ap.[12] * sthp.[12])
   + b.[13] * ap.[13] * cthp.[13]
   - d.[14] * ap.[14] * cthp.[14]
   + b.[15] * ap.[15] * cthp.[15]
   - b.[16] * ((c.[16] - lna) * ap.[16] * cthp.[16] + th * ap.[16] * sthp.[16])
   + b.[17] * ap.[17] * cthp.[17]
   - d.[18] * ap.[18] * cthp.[18]
   + b.[19] * ap.[19] * cthp.[19]
   - b.[20] * ((c.[20] - lna) * ap.[20] * cthp.[20] + th * ap.[20] * sthp.[20])
   + b.[21] * ap.[21] * cthp.[21]
   - d.[22] * ap.[22] * cthp.[22]
   + b.[23] * ap.[23] * cthp.[23])%float.

Definition Je (g : globals) (p q : float) : M complex :=
  let a := sqrt (p * p + q * q) in
  let th := m_atan2 L q p in
  let lna := m_log L a in
  t <- for_range_m 0 32 1 (Je_tables_body a th)
         (ETabs (zeros 32) (zeros 32) (zeros 32)) ;;
  ret (Cx (Je_P g t th lna) (Je_Q g t th lna)).

(** ** Reference Integrator *)

Definition CI_N : Z := 10000.
Definition mu_max : float := 10.
Definition dmu : float := mu_max / d_of_int CI_N.

Definition CI_body (p q : float) (i : Z) (mu_sum : complex) : M complex :=
  let ifac := if (i =? 0) || (i =? CI_N) then 1%float
              else d_of_int (2 * Z.rem i 2 + 2) in
  let mu := (d_of_int i * dmu)%float in
  let arg :=
    cx_mul_d
      (cx_mul_d (cx_sub_d (m_csqrt L (d_add_cx (mu * mu) ci)) mu)
                (m_exp L (- p * mu)))
      (m_cos L (q * mu)) in
  let mu_sum := cx_add mu_sum (d_mul_cx ifac arg) in
  cout [Str "w 0 "; Dbl mu; sp; Dbl (real arg); nl] ;;;
  cout [Str "w 1 "; Dbl mu; sp; Dbl (imag arg); nl] ;;;
  ret mu_sum.

Definition CI (p q : float) : M complex :=
  mu_sum <- for_range_m 0 (CI_N + 1) 1 (CI_body p q) (Cx 0 0) ;;
  ret (cx_mul_d mu_sum (dmu / 3)).

(** ** The driver *)

(** [argv_p] and [argv_q] are the command-line arguments after [strtod],
    when present. *)
Definition main (argv_p argv_q : option float) : M Z :=
  let p := default 5%float argv_p in
  let q := default 1%float argv_q in
  let g := Coeffs (Factorials globals0) in
  let r := sqrt (p * p + q * q) in
  Jc <- CI p q ;;
  cerr [Dbl r; sp; Dbl (real Jc); sp; Dbl (imag Jc); nl] ;;;
  Jv <- J g p q ;;
  cerr [Dbl r; sp; Dbl (real Jv); sp; Dbl (imag Jv); nl] ;;;
  Jve <- Je g p q ;;
  cerr [Dbl r; sp; Dbl (real Jve); sp; Dbl (imag Jve); nl] ;;;
  cout [Str "n -1"; nl; Str "exec autoxy"; nl] ;;;
  ret 0.

End Program.

(** * Definitions used to state the properties *)

(** The integers of [lo, hi), in order. *)
Definition Zrange (lo hi : Z) : list Z :=
  map (fun k => lo + Z.of_nat k) (seq 0 (Z.to_nat (hi - lo))).

(** The tables the driver builds before any evaluator runs. *)
Definition tables0 : globals := Factorials globals0.

(** The checks below are stated for an arbitrary table and run on the
    table the program builds. *)
Definition F_step_ok (Ft : list float) (n : Z) : bool :=
  Leibniz.eqb Ft.[n] (d_of_int n * Ft.[n - 1])%float.

Definition F_below_all_later (Ft : list float) (n : Z) : bool :=
  forallb (fun m => Ft.[n] <? Ft.[m])%float (Zrange (n + 1) Nf).

Definition F_table_ok (Ft : list float) : bool :=
  (Z.of_nat (length Ft) =? Nf) && Leibniz.eqb Ft.[0] 1
  && forallb (F_step_ok Ft) (Zrange 1 Nf)
  && forallb (F_below_all_later Ft) (Zrange 1 Nf).

(** The composite Simpson sum as the specification words it. *)
Section Reference.

Variable L : libm.

Definition simpson_weight (N i : Z) : float :=
  if (i =? 0) || (i =? N) then 1%float
  else if Z.odd i then 4%float else 2%float.

(** [f(mu) = (sqrt(mu^2 + i) - mu) * exp(-p mu) * cos(q mu)] *)
Definition integrand (p q mu : float) : complex :=
  cx_mul_d
    (cx_mul_d (cx_sub_d (m_csqrt L (d_add_cx (mu * mu) (Cx 0 1))) mu)
              (m_exp L (- p * mu)))
    (m_cos L (q * mu)).

Definition simpson_sum (p q : float) : complex :=
  let N := 10000 in
  let dmu := (10 / d_of_int N)%float in
  cx_mul_d
    (fold_left
       (fun acc i =>
          cx_add acc (d_mul_cx (simpson_weight N i)
                               (integrand p q (d_of_int i * dmu))))
       (Zrange 0 (N + 1)) (Cx 0 0))
    (dmu / 3).

(** The value part of one iteration of the loop of [CI]. *)
Definition CI_acc (p q : float) (i : Z) (mu_sum : complex) : complex :=
  let ifac := if (i =? 0) || (i =? CI_N) then 1%float
              else d_of_int (2 * Z.rem i 2 + 2) in
  cx_add mu_sum (d_mul_cx ifac (integrand p q (d_of_int i * dmu))).

End Reference.

(** What the Coefficient Builder leaves in the tables at index [n]: the
    recurrences of the specification, with the floor division and the
    modulus of its sign formula. *)
Definition coeff_rec (L : libm) (g : globals) (n : Z) : Prop :=
  (b g).[n] = (m_pow L (-1) (d_of_int (((n + 1) / 2) mod 2)) * (b g).[n - 2]
               / (d_of_int n * (d_of_int n + 2)))%float
  /\ (c g).[n] = ((c g).[n - 2] + 1 / d_of_int n + 1 / d_of_int (n + 2))%float
  /\ (d g).[n] = (pi L * (b g).[n] / 4)%float.

Definition coeff_seeds (L : libm) (g : globals) : Prop :=
  (b g).[1] = (sqrt 2 / 6)%float
  /\ (b g).[2] = (1 / 16)%float
  /\ (c g).[2] = 1.3659315%float
  /\ (d g).[2] = (pi L * (b g).[2] / 4)%float.

Definition coeff_lengths (g : globals) : Prop :=
  Z.of_nat (length (b g)) = Ne /\ Z.of_nat (length (c g)) = Ne
  /\ Z.of_nat (length (d g)) = Ne.

(** The entries the Coefficient Builder stores to. *)
Definition Coeffs_stores (t : tbl) (n : Z) : Prop :=
  match t with
  | T_b => 1 <= n <= 49
  | T_c | T_d => 2 <= n <= 49
  | _ => False
  end.

(** The entries of the coefficient tables [Je] reads. *)
Definition Je_reads (t : tbl) (n : Z) : Prop :=
  match t with
  | T_b => 1 <= n <= 25
  | T_c => 2 <= n <= 22 /\ Z.even n = true
  | T_d => 2 <= n <= 24 /\ Z.even n = true
  | _ => False
  end.

(** A stand-in for the C library, to evaluate the program on concrete
    inputs.  It returns the values the C standard fixes ([pow] with an
    exponent [0] or [1], of [0], of a power of two; [cos 0], [sin 0],
    [atan2 0 x], [log 0], the rounded [pi/4] for [atan 1]) and a
    low-order approximation elsewhere. *)
Definition pow_int (x : float) (n : Z) : float :=
  for_range 0 n 1 (fun _ y => y * x)%float 1%float.

Definition int_of_double (y : float) : option Z :=
  List.find (fun n => d_of_int n =? y)%float (Zrange 0 64).

Definition libm0 : libm := {|
  m_atan x := (if x =? 1 then 0x1.921fb54442d18p-1 else x)%float;
  m_exp x := (1 + x)%float;
  m_log x := (if x =? 0 then neg_infinity else x - 1)%float;
  m_cos x := (1 - x * x / 2)%float;
  m_sin x := (x * (1 - x * x / 6))%float;
  m_atan2 y x := (y * (1 / (abs x + 1)))%float;
  m_pow x y := match int_of_double y with
               | Some n => pow_int x n
               | None => nan
               end;
  m_csqrt z := Cx (sqrt (abs (real z))) 0
|}.

(** The tables of the Table Builder. *)
Definition builder_table (t : tbl) : bool :=
  match t with T_F | T_SI | T_PX => true | _ => false end.

(** The pure part of the evaluators: what a loop iteration computes, next
    to the diagnostics it prints. *)
Section Evaluators.

Variable L : libm.

(** One iteration of the table loop of [Je], and the three tables. *)
Definition Je_tables_step (a th : float) (n : Z) (t : etabs) : etabs :=
  ETabs (put n (m_pow L a (d_of_int n)) (ap t))
        (put n (m_cos L (d_of_int n * th)) (e_cthp t))
        (put n (m_sin L (d_of_int n * th)) (e_sthp t)).

Definition Je_tables (a th : float) : etabs :=
  for_range 0 32 1 (Je_tables_step a th)
    (ETabs (zeros 32) (zeros 32) (zeros 32)).

(** The diagnostic of [Je] for index [n]. *)
Definition Je_diag (a th : float) (n : Z) : list event :=
  let x := m_pow L a (d_of_int n) in
  if is_nan x || is_nan (m_cos L (d_of_int n * th))
     || is_nan (m_sin L (d_of_int n * th))
  then map (pair Cerr) [Str "Je : "; Int n; sp; Dbl a; sp; Dbl x; nl]
  else [].

End Evaluators.

(** The tables of [Je] after the iterations below [i]. *)
Definition Je_tables_inv (L : libm) (a th : float) (i : Z) (t : etabs) : Prop :=
  (Z.of_nat (length (ap t)) = 32 /\ Z.of_nat (length (e_cthp t)) = 32
   /\ Z.of_nat (length (e_sthp t)) = 32)
  /\ forall n, 0 <= n < i ->
       (ap t).[n] = m_pow L a (d_of_int n)
       /\ (e_cthp t).[n] = m_cos L (d_of_int n * th)
       /\ (e_sthp t).[n] = m_sin L (d_of_int n * th).

(** How a computation stopped, when it did not return. *)
Inductive stop := SExit (code : Z) | SFault (t : tbl) (i : Z).

Definition stopped {A} (r : result A) : option stop :=
  match r with
  | Ok _ => None
  | Exit code => Some (SExit code)
  | Fault t i => Some (SFault t i)
  end.

Definition faulted {A} (r : result A) : bool :=
  match r with Fault _ _ => true | _ => false end.

(** The iterations [ixs] of a loop body, in order. *)
Fixpoint run_steps {S : Type} (body : Z -> S -> M S) (ixs : list Z) (s : S)
    : M S :=
  match ixs with
  | [] => ret s
  | i :: ixs => s' <- body i s ;; run_steps body ixs s'
  end.

(** The six accumulation loops of [J]. *)
Inductive jloop := L_s2 | L_s4 | L_g1 | L_g3 | L_g2 | L_g4.

Definition jstate (l : jloop) : Type :=
  match l with
  | L_s2 | L_s4 => (float * float * Z * Z)%type
  | L_g1 | L_g3 => (float * Z * Z)%type
  | L_g2 | L_g4 => (float * Z * Z * Z)%type
  end.

Definition jbody (l : jloop) : globals -> jtabs -> Z -> jstate l -> M (jstate l) :=
  match l with
  | L_s2 => body_s2 | L_s4 => body_s4
  | L_g1 => body_g1 | L_g3 => body_g3
  | L_g2 => body_g2 | L_g4 => body_g4
  end.

Definition jinit (l : jloop) : jstate l :=
  match l with
  | L_s2 => (0%float, 0%float, 1, 1)
  | L_s4 => (0%float, 0%float, 2, 1)
  | L_g1 => (0%float, 1, 3)
  | L_g3 => (0%float, 1, 5)
  | L_g2 => (0%float, 1, 2, 1)
  | L_g4 => (0%float, 1, 3, 2)
  end.

(** The term index [np] of iteration [ns]. *)
Definition jterm (l : jloop) (ns : Z) : Z :=
  match l with
  | L_s2 | L_g2 => 2 + 4 * ns
  | L_s4 | L_g4 => 4 + 4 * ns
  | L_g1 => 1 + 4 * ns
  | L_g3 => 3 + 4 * ns
  end.

Definition jlabel (l : jloop) : string :=
  match l with
  | L_s2 => "2 2p : " | L_s4 => "4 4p : "
  | L_g1 => "g1 : " | L_g3 => "g3 : "
  | L_g2 => "g2 : " | L_g4 => "g4 : "
  end.

(** The state after the accumulation of iteration [ns], for reads in
    range. *)
Definition jacc (l : jloop) (g : globals) (t : jtabs) (ns : Z)
    : jstate l -> jstate l :=
  let np := jterm l ns in
  match l with
  | L_s2 | L_s4 => fun '(s, sp', nf, nsign) =>
      let w := (d_of_int nsign * (1 / ((F g).[nf] * (F g).[nf + 1])))%float in
      ((s + w * (rhp t).[np] * (cthp t).[np])%float,
       (sp' + w * (rhp t).[np] * (sthp t).[np])%float,
       nf + 2, - nsign)
  | L_g1 | L_g3 => fun '(sg, nsign, nden) =>
      ((sg + d_of_int nsign * (rp t).[np] * (cthp t).[np] / (PX g).[nden])%float,
       - nsign, nden + 4)
  | L_g2 | L_g4 => fun '(sg, nsign, nfrac, nf) =>
      ((sg + d_of_int nsign * (SI g).[nfrac]
             * (1 / ((F g).[nf] * (F g).[nf + 1]))
             * (rhp t).[np] * (cthp t).[np])%float,
       - nsign, nfrac + 2, nf + 2)
  end.

(** The not-a-number test on the sums of a state. *)
Definition jnan (l : jloop) : jstate l -> bool :=
  match l with
  | L_s2 | L_s4 => fun '(s, sp', _, _) => is_nan s || is_nan sp'
  | L_g1 | L_g3 => fun '(sg, _, _) => is_nan sg
  | L_g2 | L_g4 => fun '(sg, _, _, _) => is_nan sg
  end.

(** The diagnostic printed when the test fires in iteration [ns], from the
    state [st] after the accumulation: the label of the loop, [ns] and
    [np]; the first loop adds a line of values. *)
Definition jdiag (l : jloop) (g : globals) (t : jtabs) (ns : Z)
    : jstate l -> list event :=
  let np := jterm l ns in
  let head := [Str (jlabel l); Int ns; sp; Int np; nl] in
  match l with
  | L_s2 => fun '(s2, s2p, nf, nsign) =>
      map (pair Cerr)
        (head ++ [Dbl (rhp t).[np]; sp; Dbl (cthp t).[np]; sp;
                  Dbl (sthp t).[np]; sp; Int nsign; sp; Int nf; sp;
                  Dbl (F g).[nf]; sp; Dbl (F g).[nf + 1]; sp;
                  Dbl s2; sp; Dbl s2p; nl])
  | _ => fun _ => map (pair Cerr) head
  end.

Definition is_value (e : event) : bool :=
  match e with (_, Dbl _) => true | _ => false end.

(** Tables whose every entry is not-a-number. *)
Definition nan_tabs : jtabs :=
  let l := replicate 32 nan in JTabs l l l l.

(** The state of the tables after the iterations [3 .. n-1] of the loop
    of [Coeffs], started from [g0]. *)
Definition Coeffs_inv (L : libm) (g0 : globals) (n : Z) (g : globals) : Prop :=
  coeff_lengths g /\ coeff_seeds L g
  /\ (c g).[1] = (c g0).[1] /\ (d g).[1] = (d g0).[1]
  /\ forall k, 3 <= k < n -> coeff_rec L g k.

(** The entries assigned after the iterations [3 .. n-1] of that loop. *)
Definition Coeffs_assigned_inv (g0 : globals) (n : Z) (g : globals) : Prop :=
  forall t k,
    In (t, k) (assigned g)
    <-> In (t, k) (assigned g0)
        \/ (t = T_b /\ 1 <= k <= 2) \/ ((t = T_c \/ t = T_d) /\ k = 2)
        \/ ((t = T_b \/ t = T_c \/ t = T_d) /\ 3 <= k < n).

(** Two states of the global tables that agree on the entries [Je_reads]
    names. *)
Definition agree_on_Je_reads (g g' : globals) : Prop :=
  forall t n, Je_reads t n -> (table t g).[n] = (table t g').[n].

(** The declared size of the local tables of [J]. *)
Definition jtabs_lengths (t : jtabs) : Prop :=
  Z.of_nat (length (rp t)) = 32 /\ Z.of_nat (length (rhp t)) = 32
  /\ Z.of_nat (length (cthp t)) = 32 /\ Z.of_nat (length (sthp t)) = 32.

(** The two ways [J] ends. *)
Definition J_stop (e : stop) : Prop := e = SExit 0 \/ e = SFault T_rhp 32.

(** The index variables of a loop of [J] at the start of iteration [ns]. *)
Definition jindex_inv (l : jloop) (ns : Z) : jstate l -> Prop :=
  match l with
  | L_s2 => fun '(_, _, nf, _) => nf = 1 + 2 * ns
  | L_s4 => fun '(_, _, nf, _) => nf = 2 + 2 * ns
  | L_g1 => fun '(_, _, nden) => nden = 3 + 4 * ns
  | L_g3 => fun '(_, _, nden) => nden = 5 + 4 * ns
  | L_g2 => fun '(_, _, nfrac, nf) => nfrac = 2 + 2 * ns /\ nf = 1 + 2 * ns
  | L_g4 => fun '(_, _, nfrac, nf) => nfrac = 3 + 2 * ns /\ nf = 2 + 2 * ns
  end.

(** The declared sizes of the tables of the Table Builder. *)
Definition builder_lengths (g : globals) : Prop :=
  Z.of_nat (length (F g)) = Nf /\ Z.of_nat (length (SI g)) = Nsi
  /\ Z.of_nat (length (PX g)) = Nsi + 1.

(** The entries the Table Builder stores to. *)
Definition Factorials_stores (t : tbl) (n : Z) : Prop :=
  match t with
  | T_F => 0 <= n <= 149
  | T_SI => 2 <= n <= 100
  | T_PX => 1 <= n <= 101 /\ Z.odd n = true
  | _ => False
  end.

(** The entries assigned while the three loops of [Factorials] run:
    [i] is the index the running loop is about to fill. *)
Definition F_assigned_inv (g0 : globals) (i : Z) (g : globals) : Prop :=
  forall t k,
    In (t, k) (assigned g)
    <-> In (t, k) (assigned g0) \/ (t = T_F /\ 0 <= k < i).

Definition SI_assigned_inv (g0 : globals) (i : Z) (g : globals) : Prop :=
  forall t k,
    In (t, k) (assigned g)
    <-> In (t, k) (assigned g0) \/ (t = T_F /\ 0 <= k < Nf)
        \/ (t = T_SI /\ 2 <= k < i).

Definition PX_assigned_inv (g0 : globals) (i : Z) (g : globals) : Prop :=
  Z.odd i = true
  /\ forall t k,
       In (t, k) (assigned g)
       <-> In (t, k) (assigned g0) \/ (t = T_F /\ 0 <= k < Nf)
           \/ (t = T_SI /\ 2 <= k < Nsi)
           \/ (t = T_PX /\ (1 <= k < i /\ Z.odd k = true)).

(** The declared number of entries of each array. *)
Definition declared_size (t : tbl) : Z :=
  match t with
  | T_F => Nf | T_SI => Nsi | T_PX => Nsi + 1
  | T_b | T_c | T_d => Ne
  | T_rp | T_rhp | T_cthp | T_sthp | T_ap => 32
  end.

(** The entries of the tables of the Table Builder [J] reads. *)
Definition J_reads (t : tbl) (n : Z) : Prop :=
  match t with
  | T_F => 1 <= n <= 18
  | T_SI => 2 <= n <= 17
  | T_PX => 3 <= n <= 33 /\ Z.odd n = true
  | _ => False
  end.

(** Two states of the global tables of the same sizes that agree on the
    entries [J_reads] names. *)
Definition agree_on_J_reads (g g' : globals) : Prop :=
  (length (F g) = length (F g') /\ length (SI g) = length (SI g')
   /\ length (PX g) = length (PX g'))
  /\ forall t n, J_reads t n -> (table t g).[n] = (table t g').[n].

(** The integer a [double] holds, when it holds one. *)
Definition float_Z (x : float) : option Z :=
  match Prim2SF x with
  | S754_zero _ => Some 0
  | S754_finite s m e =>
      let v := if 0 <=? e then Some (Z.pos m * 2 ^ e)
               else if Z.pos m mod 2 ^ (- e) =? 0
                    then Some (Z.pos m / 2 ^ (- e)) else None in
      option_map (fun z => if s then - z else z) v
  | _ => None
  end.

(** [n!] *)
Definition Zfact (n : Z) : Z := fold_left Z.mul (Zrange 1 (n + 1)) 1.

(** The checks on the tables of the Table Builder: every entry it stores
    is a finite, positive number, and the factorials up to [22!] are
    exact. *)
Definition entry_ok (l : list float) (n : Z) : bool :=
  is_finite l.[n] && (0 <? l.[n])%float.

Definition builder_tables_ok (g : globals) : bool :=
  forallb (entry_ok (F g)) (Zrange 0 Nf)
  && forallb (entry_ok (SI g)) (Zrange 2 Nsi)
  && forallb (fun n => negb (Z.odd n) || entry_ok (PX g) n)
       (Zrange 1 (Nsi + 1)).

Definition float_Z_is (z : Z) (x : float) : bool :=
  match float_Z x with Some y => y =? z | None => false end.

Definition F_exact_ok (Ft : list float) : bool :=
  forallb (fun n => float_Z_is (Zfact n) Ft.[n]) (Zrange 0 23)
  && negb (float_Z_is (Zfact 23) Ft.[23]).

(** The two plot lines [CI] prints for sample [i]. *)
Definition CI_plot (L : libm) (p q : float) (i : Z) : list event :=
  let mu := (d_of_int i * dmu)%float in
  let arg := integrand L p q mu in
  map (pair Cout)
    [Str "w 0 "; Dbl mu; sp; Dbl (real arg); nl;
     Str "w 1 "; Dbl mu; sp; Dbl (imag arg); nl].

(** The sign of [b[n]]: positive for [n = 1..4], negative for [5..8], and
    so on in blocks of four. *)
Definition b_positive (n : Z) : bool := (n - 1) mod 8 <? 4.

(** The checks on a table [b]: the sign pattern, and magnitudes that
    decrease strictly. *)
Definition b_entry_ok (bt : list float) (n : Z) : bool :=
  Bool.eqb (0 <? bt.[n])%float (b_positive n)
  && Bool.eqb (bt.[n] <? 0)%float (negb (b_positive n))
  && ((49 <=? n) || (abs bt.[n + 1] <? abs bt.[n])%float).

Definition b_table_ok (bt : list float) : bool :=
  forallb (b_entry_ok bt) (Zrange 1 Ne).

(** [m * (3 * 5 * ... * (2*(m/2) - 1))^2], the product [prod_xsq] forms,
    over the integers. *)
Definition Zprod_xsq (m : Z) : Z :=
  fold_left (fun a mx => a * ((2 * mx + 1) * (2 * mx + 1)))
    (Zrange 1 (m / 2)) m.

Definition PX_exact_ok (PXt : list float) : bool :=
  forallb (fun n => negb (Z.odd n) || float_Z_is (Zprod_xsq n) PXt.[n])
    (Zrange 1 18)
  && negb (float_Z_is (Zprod_xsq 19) PXt.[19]).

(** * Properties *)

(** ** IEEE arithmetic: not-a-number and sign *)

Lemma Prim2SF_nan : Prim2SF nan = S754_nan.
Proof. reflexivity. Qed.

Lemma SFcompare_refl (x : spec_float) :
  x <> S754_nan -> SFcompare x x = Some Eq.
Proof.
  destruct x as [s| s| |s m e]; intros H; try congruence; unfold SFcompare.
  - reflexivity.
  - destruct s; reflexivity.
  - rewrite Z.compare_refl, Pos.compare_cont_refl. destruct s; reflexivity.
Qed.

Lemma is_nan_eq (x : float) : is_nan x = true -> x = nan.
Proof.
  unfold is_nan. rewrite FloatAxioms.eqb_spec. unfold SFeqb. intros H.
  apply Prim2SF_inj. rewrite Prim2SF_nan.
  destruct (Prim2SF x) eqn:E; try reflexivity;
    rewrite SFcompare_refl in H by discriminate; discriminate.
Qed.

Lemma is_nan_nan : is_nan nan = true.
Proof. reflexivity. Qed.

Lemma mul_nan_l (x : float) : (nan * x)%float = nan.
Proof. apply Prim2SF_inj. rewrite mul_spec, Prim2SF_nan. reflexivity. Qed.

Lemma mul_nan_r (x : float) : (x * nan)%float = nan.
Proof.
  apply Prim2SF_inj. rewrite mul_spec, Prim2SF_nan.
  now destruct (Prim2SF x).
Qed.

Lemma add_nan_l (x : float) : (nan + x)%float = nan.
Proof. apply Prim2SF_inj. rewrite add_spec, Prim2SF_nan. reflexivity. Qed.

Lemma add_nan_r (x : float) : (x + nan)%float = nan.
Proof.
  apply Prim2SF_inj. rewrite add_spec, Prim2SF_nan.
  now destruct (Prim2SF x).
Qed.

Lemma sub_nan_l (x : float) : (nan - x)%float = nan.
Proof. apply Prim2SF_inj. rewrite sub_spec, Prim2SF_nan. reflexivity. Qed.

Lemma sub_nan_r (x : float) : (x - nan)%float = nan.
Proof.
  apply Prim2SF_inj. rewrite sub_spec, Prim2SF_nan.
  now destruct (Prim2SF x).
Qed.

Lemma round_aux_opp (s : bool) (m e : Z) (l : location) :
  binary_round_aux prec emax (negb s) m e l
  = SFopp (binary_round_aux prec emax s m e l).
Proof.
  unfold binary_round_aux.
  destruct (shr_fexp prec emax m e l) as [mrs e'].
  destruct (shr_fexp prec emax _ e' loc_Exact) as [mrs' e''].
  destruct (shr_m mrs'); try reflexivity.
  destruct (e'' <=? emax - prec); reflexivity.
Qed.

Lemma SFmul_opp_l (x y : spec_float) :
  SFmul prec emax (SFopp x) y = SFopp (SFmul prec emax x y).
Proof.
  destruct x as [sx|sx| |sx mx ex], y as [sy|sy| |sy my ey]; cbn [SFmul SFopp];
    try reflexivity; try (now destruct sx, sy).
  rewrite <- round_aux_opp. now destruct sx, sy.
Qed.

Lemma SFmul_opp_r (x y : spec_float) :
  SFmul prec emax x (SFopp y) = SFopp (SFmul prec emax x y).
Proof.
  destruct x as [sx|sx| |sx mx ex], y as [sy|sy| |sy my ey]; cbn [SFmul SFopp];
    try reflexivity; try (now destruct sx, sy).
  rewrite <- round_aux_opp. now destruct sx, sy.
Qed.

Lemma SFopp_involutive (x : spec_float) : SFopp (SFopp x) = x.
Proof. destruct x; cbn; now rewrite ?negb_involutive. Qed.

Lemma mul_opp_l (x y : float) : (- x * y)%float = (- (x * y))%float.
Proof.
  apply Prim2SF_inj. rewrite opp_spec, !mul_spec, opp_spec.
  apply SFmul_opp_l.
Qed.

Lemma mul_opp_r (x y : float) : (x * - y)%float = (- (x * y))%float.
Proof.
  apply Prim2SF_inj. rewrite opp_spec, !mul_spec, opp_spec.
  apply SFmul_opp_r.
Qed.

Lemma opp_involutive (x : float) : (- - x)%float = x.
Proof. apply Prim2SF_inj. rewrite !opp_spec. apply SFopp_involutive. Qed.

Lemma mul_opp_opp (x y : float) : (- x * - y)%float = (x * y)%float.
Proof. now rewrite mul_opp_l, mul_opp_r, opp_involutive. Qed.

Lemma is_nan_opp (x : float) : is_nan (- x) = is_nan x.
Proof.
  unfold is_nan. rewrite !FloatAxioms.eqb_spec, opp_spec. unfold SFeqb.
  destruct (Prim2SF x) as [s|s| |s m e]; try reflexivity.
  - destruct s; reflexivity.
  - rewrite !SFcompare_refl by discriminate. reflexivity.
Qed.


(** ** Bounded quantification by evaluation *)

Lemma Zrange_In (lo hi n : Z) : lo <= n < hi -> In n (Zrange lo hi).
Proof.
  intros Hn. unfold Zrange. apply in_map_iff.
  exists (Z.to_nat (n - lo)). split; [lia|].
  apply in_seq. lia.
Qed.

Lemma forall_Zrange (P : Z -> bool) (lo hi : Z) :
  forallb P (Zrange lo hi) = true -> forall n, lo <= n < hi -> P n = true.
Proof.
  intros H n Hn. rewrite forallb_forall in H. apply H, Zrange_In, Hn.
Qed.

(** ** Loops: fuel and unrolling *)

Lemma for_loop_step {S : Type} (k : nat) (i hi step : Z)
    (body : Z -> S -> S) (s : S) :
  i < hi ->
  for_loop (Datatypes.S k) i hi step body s
  = for_loop k (i + step) hi step body (body i s).
Proof. intros H. simpl. apply Z.ltb_lt in H. now rewrite H. Qed.

Lemma for_loop_done {S : Type} (k : nat) (i hi step : Z)
    (body : Z -> S -> S) (s : S) :
  hi <= i -> for_loop k i hi step body s = s.
Proof.
  intros H. destruct k; [reflexivity|]. simpl.
  apply Z.ltb_ge in H. now rewrite H.
Qed.

(** More fuel than the trip count changes nothing: the loops of the model
    run to their natural end. *)
Lemma for_loop_fuel {S : Type} (body : Z -> S -> S) (hi step : Z) :
  0 < step ->
  forall (k : nat) (i : Z) (s : S),
    (trip_count i hi step <= k)%nat ->
    for_loop k i hi step body s
    = for_loop (trip_count i hi step) i hi step body s.
Proof.
  intros Hstep. induction k as [|k IH]; intros i s Hk.
  - assert (trip_count i hi step = 0%nat) as -> by lia. reflexivity.
  - destruct (Z.lt_ge_cases i hi) as [Hlt|Hge].
    + assert (trip_count i hi step
              = Datatypes.S (trip_count (i + step) hi step)) as E.
      { unfold trip_count.
        replace (hi - i + step - 1) with ((hi - (i + step) + step - 1) + 1 * step) by lia.
        rewrite Z.div_add by lia.
        assert (0 <= (hi - (i + step) + step - 1) / step)
          by (apply Z.div_pos; lia).
        lia. }
      rewrite E, !for_loop_step by assumption.
      apply IH. lia.
    + now rewrite !for_loop_done.
Qed.

(** ** Table Builder *)

Lemma float_eq_by_eqb (x y : float) : Leibniz.eqb x y = true -> x = y.
Proof. apply FloatAxioms.Leibniz.eqb_spec. Qed.

Lemma tables0_F_ok : F_table_ok (F tables0) = true.
Proof. vm_compute. reflexivity. Qed.

(** C6. The factorial table has [Nf = 150] entries, [F[0] = 1], every
    entry [n] of [1..149], the last one included, is [n * F[n-1]] (in
    double precision), and the table is strictly increasing from index 1
    on: [F[k] < F[m]] whenever [1 <= k < m <= 149]. *)
Theorem Factorials_table (n k m : Z) :
  1 <= n <= 149 -> 1 <= k -> k < m <= 149 ->
  Z.of_nat (length (F tables0)) = Nf
  /\ (F tables0).[0] = 1%float
  /\ (F tables0).[n] = (d_of_int n * (F tables0).[n - 1])%float
  /\ ((F tables0).[k] <? (F tables0).[m])%float = true.
Proof.
  intros Hn Hk Hm. pose proof tables0_F_ok as H.
  generalize dependent (F tables0). intros Ft H. unfold F_table_ok in H.
  apply andb_prop in H as [H H4]. apply andb_prop in H as [H H3].
  apply andb_prop in H as [H1 H2].
  split; [now apply Z.eqb_eq|].
  split; [now apply float_eq_by_eqb|].
  split.
  - apply float_eq_by_eqb. apply (forall_Zrange _ _ _ H3). unfold Nf. lia.
  - assert (F_below_all_later Ft k = true) as H5
      by (apply (forall_Zrange _ _ _ H4); unfold Nf; lia).
    unfold F_below_all_later in H5. rewrite forallb_forall in H5.
    apply H5, Zrange_In. unfold Nf. lia.
Qed.

Lemma Factorials_table_witness :
  (F tables0).[149] = (d_of_int 149 * (F tables0).[148])%float
  /\ ((F tables0).[148] <? (F tables0).[149])%float = true.
Proof.
  refine (match Factorials_table 149 148 149 _ _ _ with
          | conj _ (conj _ H) => H end); lia.
Defined.

(** The entry of the harmonic table the specification quotes. *)
Example SI_2 : (SI tables0).[2] = 1.25%float.
Proof. vm_compute. reflexivity. Qed.

(** ** Loops as folds *)

Lemma trip_count_1 (lo hi : Z) : trip_count lo hi 1 = Z.to_nat (hi - lo).
Proof. unfold trip_count. rewrite Z.div_1_r. f_equal. lia. Qed.

Lemma Zrange_nil (lo hi : Z) : hi <= lo -> Zrange lo hi = [].
Proof.
  intros H. unfold Zrange.
  replace (Z.to_nat (hi - lo)) with 0%nat by lia. reflexivity.
Qed.

Lemma Zrange_cons (lo hi : Z) :
  lo < hi -> Zrange lo hi = lo :: Zrange (lo + 1) hi.
Proof.
  intros H. unfold Zrange.
  replace (Z.to_nat (hi - lo)) with (Datatypes.S (Z.to_nat (hi - (lo + 1))))
    by lia.
  cbn [seq map]. f_equal; [lia|].
  rewrite <- seq_shift, map_map. apply map_ext. intros k. lia.
Qed.

Lemma for_range_fold {S : Type} (f : Z -> S -> S) (hi : Z) :
  forall (k : nat) (lo : Z) (s : S),
    k = Z.to_nat (hi - lo) ->
    for_loop k lo hi 1 f s = fold_left (fun s i => f i s) (Zrange lo hi) s.
Proof.
  induction k as [|k IH]; intros lo s Hk.
  - rewrite Zrange_nil by lia. reflexivity.
  - rewrite for_loop_step, Zrange_cons by lia. cbn [fold_left].
    apply IH. lia.
Qed.

Lemma for_m_step {S : Type} (k : nat) (i hi step : Z)
    (body : Z -> S -> M S) (s : S) :
  i < hi ->
  for_m (Datatypes.S k) i hi step body s
  = (s' <- body i s ;; for_m k (i + step) hi step body s').
Proof. intros H. cbn [for_m]. apply Z.ltb_lt in H. now rewrite H. Qed.

Lemma for_m_done {S : Type} (k : nat) (i hi step : Z)
    (body : Z -> S -> M S) (s : S) :
  hi <= i -> for_m k i hi step body s = ret s.
Proof.
  intros H. destruct k; [reflexivity|]. cbn [for_m].
  apply Z.ltb_ge in H. now rewrite H.
Qed.

(** As for the pure loops: more fuel than the trip count changes
    nothing. *)
Lemma for_m_fuel {S : Type} (body : Z -> S -> M S) (hi : Z) :
  forall (k : nat) (i : Z) (s : S),
    (Z.to_nat (hi - i) <= k)%nat ->
    for_m k i hi 1 body s = for_m (Z.to_nat (hi - i)) i hi 1 body s.
Proof.
  induction k as [|k IH]; intros i s Hk.
  - assert (Z.to_nat (hi - i) = 0%nat) as -> by lia. reflexivity.
  - destruct (Z.lt_ge_cases i hi) as [Hlt|Hge].
    + replace (Z.to_nat (hi - i))
        with (Datatypes.S (Z.to_nat (hi - (i + 1)))) by lia.
      rewrite !for_m_step by assumption.
      destruct (body i s) as [l [s'| |]]; cbn [bind]; try reflexivity.
      rewrite IH by lia. reflexivity.
    + now rewrite !for_m_done.
Qed.

Lemma snd_bind_ok {A B} (m : M A) (f : A -> M B) (a : A) :
  snd m = Ok a -> snd (bind m f) = snd (f a).
Proof.
  destruct m as [l r]. cbn. intros ->. cbn. now destruct (f a).
Qed.

(** A loop whose body always returns computes what the loop over the pure
    part of the body computes. *)
Lemma for_m_total {S : Type} (body : Z -> S -> M S) (f : Z -> S -> S)
    (hi step : Z) :
  (forall i s, snd (body i s) = Ok (f i s)) ->
  forall (k : nat) (i : Z) (s : S),
    snd (for_m k i hi step body s) = Ok (for_loop k i hi step f s).
Proof.
  intros Hb. induction k as [|k IH]; intros i s; [reflexivity|].
  cbn [for_m for_loop]. destruct (i <? hi); [|reflexivity].
  rewrite (snd_bind_ok _ _ _ (Hb i s)). apply IH.
Qed.

(** ** Reference Integrator *)

Section Simpson.

Variable L : libm.

Lemma CI_body_acc (p q : float) (i : Z) (mu_sum : complex) :
  snd (CI_body L p q i mu_sum) = Ok (CI_acc L p q i mu_sum).
Proof. reflexivity. Qed.

Lemma ifac_weight (i : Z) :
  0 <= i ->
  (if (i =? 0) || (i =? CI_N) then 1%float
   else d_of_int (2 * Z.rem i 2 + 2)) = simpson_weight 10000 i.
Proof.
  intros Hi. unfold simpson_weight, CI_N.
  destruct ((i =? 0) || (i =? 10000)); [reflexivity|].
  rewrite Z.rem_mod_nonneg by lia.
  rewrite Zodd_mod.
  assert (i mod 2 = 0 \/ i mod 2 = 1) as [-> | ->]
    by (pose proof (Z.mod_pos_bound i 2); lia);
    reflexivity.
Qed.

Lemma CI_fold (p q : float) (l : list Z) (s : complex) :
  Forall (fun i => 0 <= i) l ->
  fold_left (fun s i => CI_acc L p q i s) l s
  = fold_left
      (fun acc i =>
         cx_add acc (d_mul_cx (simpson_weight 10000 i)
                              (integrand L p q (d_of_int i * dmu)))) l s.
Proof.
  intros H. revert s. induction H as [|i l Hi _ IH]; intros s; [reflexivity|].
  cbn [fold_left]. rewrite <- IH. f_equal.
  unfold CI_acc. now rewrite ifac_weight.
Qed.

(** [CI] always returns. *)
Lemma CI_returns (p q : float) : exists v, snd (CI L p q) = Ok v.
Proof.
  unfold CI, for_range_m.
  rewrite (snd_bind_ok _ _ _
             (for_m_total _ _ _ _ (CI_body_acc p q) _ _ _)).
  eexists. reflexivity.
Qed.

(** C2. [CI(p, q)] returns, and its value is the composite Simpson sum
    over [0, 10] with [N = 10000] intervals: the sum over [i = 0..N], in
    that order, of [w_i * f(i * dmu)], times [dmu / 3], with [dmu = 10/N],
    [w_i] = 1 at both ends, 4 at odd [i], 2 at even interior [i], and [f]
    the integrand [(sqrt(mu^2 + i) - mu) * exp(-p mu) * cos(q mu)]. *)
Theorem CI_is_simpson_sum (p q : float) :
  snd (CI L p q) = Ok (simpson_sum L p q).
Proof.
  unfold CI, for_range_m.
  rewrite (snd_bind_ok _ _ _
             (for_m_total _ _ _ _ (CI_body_acc p q) _ _ _)).
  rewrite trip_count_1, for_range_fold by reflexivity.
  rewrite CI_fold.
  - unfold simpson_sum, ret, dmu, mu_max, CI_N. cbn [snd]. reflexivity.
  - apply List.Forall_forall. intros i Hi.
    unfold Zrange in Hi. apply in_map_iff in Hi as (k & <- & _). lia.
Qed.

End Simpson.

(** ** Arrays *)

Lemma at_put_eq (l : list float) (i : Z) (v : float) :
  0 <= i < Z.of_nat (length l) -> (put i v l).[i] = v.
Proof.
  intros H. unfold at_, put. apply list_lookup_total_insert_eq. lia.
Qed.

Lemma at_put_ne (l : list float) (i j : Z) (v : float) :
  0 <= i -> 0 <= j -> i <> j -> (put i v l).[j] = l.[j].
Proof.
  intros Hi Hj H. unfold at_, put. apply list_lookup_total_insert_ne. lia.
Qed.

Lemma length_put (l : list float) (i : Z) (v : float) :
  length (put i v l) = length l.
Proof. apply length_insert. Qed.

(** ** Loop invariants *)

Lemma for_range_inv {S : Type} (Inv : Z -> S -> Prop) (body : Z -> S -> S)
    (lo hi : Z) (s : S) :
  lo <= hi -> Inv lo s ->
  (forall i s, lo <= i < hi -> Inv i s -> Inv (i + 1) (body i s)) ->
  Inv hi (for_range lo hi 1 body s).
Proof.
  intros Hle H0 Hstep. unfold for_range. rewrite trip_count_1.
  assert (forall (k : nat) (i : Z) (s : S),
             k = Z.to_nat (hi - i) -> lo <= i <= hi -> Inv i s ->
             Inv hi (for_loop k i hi 1 body s)) as H.
  { induction k as [|k IH]; intros i s' Hk Hi HI.
    - replace hi with i by lia. exact HI.
    - rewrite for_loop_step by lia. apply IH; [lia | lia |].
      apply Hstep; [lia | exact HI]. }
  apply H; [reflexivity | lia | exact H0].
Qed.

(** ** Coefficient Builder *)

Section CoeffsFacts.

Variable L : libm.

Lemma sign_exponent_floor (n : Z) :
  0 <= n -> sign_exponent n = ((n + 1) / 2) mod 2.
Proof.
  intros H. unfold sign_exponent.
  rewrite Z.quot_div_nonneg by lia.
  apply Z.rem_mod_nonneg; [apply Z.div_pos; lia | lia].
Qed.

Lemma Coeffs_body_inv (g0 : globals) (n : Z) (g : globals) :
  3 <= n < Ne -> Coeffs_inv L g0 n g -> Coeffs_inv L g0 (n + 1) (Coeffs_body L n g).
Proof.
  unfold Ne. intros Hn (Hlen & Hseed & Hc1 & Hd1 & Hrec).
  destruct Hlen as (Hb & Hc & Hd). unfold Ne in Hb, Hc, Hd.
  destruct Hseed as (S1 & S2 & S3 & S4).
  unfold Coeffs_inv, coeff_lengths, coeff_seeds, coeff_rec, Coeffs_body.
  cbn [store b c d]. rewrite !length_put.
  split; [unfold Ne; auto|].
  split.
  { rewrite !at_put_ne by lia. auto. }
  split; [rewrite at_put_ne by lia; exact Hc1|].
  split; [rewrite at_put_ne by lia; exact Hd1|].
  intros k Hk. destruct (Z.eq_dec k n) as [->|Hne].
  - rewrite !at_put_eq by lia. rewrite !at_put_ne by lia.
    rewrite sign_exponent_floor by lia. auto.
  - rewrite !at_put_ne by lia. apply Hrec. lia.
Qed.

Lemma Coeffs_inv_final (g0 : globals) :
  coeff_lengths g0 -> Coeffs_inv L g0 Ne (Coeffs L g0).
Proof.
  intros (Hb & Hc & Hd). unfold Ne in Hb, Hc, Hd. unfold Coeffs.
  apply for_range_inv; [unfold Ne; lia | | apply Coeffs_body_inv].
  unfold Coeffs_inv, coeff_lengths, coeff_seeds.
  cbn [store b c d]. rewrite !length_put.
  split; [unfold Ne; auto|].
  split.
  { rewrite !at_put_eq by (rewrite ?length_put; lia).
    rewrite !at_put_ne by lia.
    rewrite !at_put_eq by (rewrite ?length_put; lia). auto. }
  split; [rewrite at_put_ne by lia; reflexivity|].
  split; [rewrite at_put_ne by lia; reflexivity|].
  intros k Hk. lia.
Qed.

(** C3. After [Coeffs], [b[1] = sqrt(2)/6], [b[2] = 1/16],
    [c[2] = 1.3659315], [d[2] = pi*b[2]/4], and at every index [n] of the
    recurrence ([3 <= n <= 49])
    [b[n] = pow(-1, floor((n+1)/2) mod 2) * b[n-2] / (n*(n+2))],
    [c[n] = c[n-2] + 1/n + 1/(n+2)] and [d[n] = pi*b[n]/4].  The exponent
    of the sign is not the published [floor((n-1)/4) mod 2]: the two
    differ, for instance at [n = 7]. *)
Theorem Coeffs_recurrence (g0 : globals) (n : Z) :
  coeff_lengths g0 -> 3 <= n <= 49 ->
  coeff_seeds L (Coeffs L g0)
  /\ coeff_rec L (Coeffs L g0) n
  /\ sign_exponent 7 = 0 /\ published_exponent 7 = 1.
Proof.
  intros Hlen Hn.
  destruct (Coeffs_inv_final g0 Hlen) as (_ & Hseed & _ & _ & Hrec).
  split; [exact Hseed|]. split; [apply Hrec; unfold Ne; lia|].
  split; reflexivity.
Qed.

(** *** What [Coeffs] stores to *)

Lemma Coeffs_body_assigned (n : Z) (g : globals) :
  assigned (Coeffs_body L n g)
  = (T_d, n) :: (T_c, n) :: (T_b, n) :: assigned g.
Proof. reflexivity. Qed.

Lemma pair_eq_iff (u t : tbl) (j k : Z) :
  (u, j) = (t, k) <-> u = t /\ j = k.
Proof. split; [intros [= -> ->]; auto | intros [-> ->]; auto]. Qed.

Lemma Coeffs_assigned_final (g0 : globals) :
  Coeffs_assigned_inv g0 Ne (Coeffs L g0).
Proof.
  unfold Coeffs. apply for_range_inv; [unfold Ne; lia | |].
  - intros t k. cbn [store assigned In]. rewrite !pair_eq_iff.
    assert (k = 1 \/ k = 2 \/ k < 1 \/ 2 < k) as [-> | [-> | Hk]] by lia;
      destruct t; intuition (try discriminate; try lia).
  - intros n g Hn IH t k. rewrite Coeffs_body_assigned. cbn [In].
    rewrite (IH t k), !pair_eq_iff.
    destruct (Z.eq_dec k n) as [-> | Hne];
      destruct t; intuition (try discriminate; try lia).
Qed.

Lemma Coeffs_assigned_iff (g0 : globals) (t : tbl) (n : Z) :
  In (t, n) (assigned (Coeffs L g0))
  <-> In (t, n) (assigned g0) \/ Coeffs_stores t n.
Proof.
  rewrite (Coeffs_assigned_final g0 t n).
  unfold Coeffs_stores, Ne.
  destruct (Z_lt_dec n 3);
    destruct t; intuition (try discriminate; try lia).
Qed.

Lemma Coeffs_keeps_index_1 (g0 : globals) :
  (c (Coeffs L g0)).[1] = (c g0).[1] /\ (d (Coeffs L g0)).[1] = (d g0).[1].
Proof.
  unfold Coeffs.
  apply (for_range_inv
           (fun _ g => (c g).[1] = (c g0).[1] /\ (d g).[1] = (d g0).[1]));
    [unfold Ne; lia | |].
  - cbn [store c d]. rewrite !at_put_ne by lia. auto.
  - intros i g Hi [H1 H2]. unfold Coeffs_body. cbn [store c d].
    rewrite !at_put_ne by lia. auto.
Qed.

(** C5 (as the code has it).  [Coeffs] stores to [b[n]] for [1 <= n <= 49]
    and to [c[n]] and [d[n]] for [2 <= n <= 49], and to nothing else:
    an entry is assigned after [Coeffs] exactly when it was before or is one
    of these; [c[1]] and [d[1]] keep the value they had. *)
Theorem Coeffs_assigns (g0 : globals) (t : tbl) (n : Z) :
  (In (t, n) (assigned (Coeffs L g0))
   <-> In (t, n) (assigned g0) \/ Coeffs_stores t n)
  /\ (c (Coeffs L g0)).[1] = (c g0).[1]
  /\ (d (Coeffs L g0)).[1] = (d g0).[1].
Proof.
  split; [apply Coeffs_assigned_iff | apply Coeffs_keeps_index_1].
Qed.

(** [Coeffs] leaves the tables of the Table Builder alone. *)
Lemma Coeffs_keeps_tables (g0 : globals) :
  F (Coeffs L g0) = F g0 /\ SI (Coeffs L g0) = SI g0
  /\ PX (Coeffs L g0) = PX g0.
Proof.
  unfold Coeffs.
  apply (for_range_inv
           (fun _ g => F g = F g0 /\ SI g = SI g0 /\ PX g = PX g0));
    [unfold Ne; lia | cbn; auto |].
  intros i g _ H. exact H.
Qed.

End CoeffsFacts.

(** The Table Builder stores to its own three tables only. *)
Lemma tables0_assigned (t : tbl) (n : Z) :
  In (t, n) (assigned tables0) -> builder_table t = true.
Proof.
  assert (forallb (fun e => builder_table (fst e)) (assigned tables0) = true)
    as H by (vm_compute; reflexivity).
  rewrite forallb_forall in H. intros Hin. exact (H _ Hin).
Qed.

(** C5 as stated fails: [c[1]] is inside [1..48] and [Coeffs] never stores
    to it. *)
Lemma Coeffs_never_stores_c_1 :
  ~ (forall (L : libm) (n : Z), 1 <= n <= 48 ->
       In (T_b, n) (assigned (Coeffs L tables0))
       /\ In (T_c, n) (assigned (Coeffs L tables0))
       /\ In (T_d, n) (assigned (Coeffs L tables0))).
Proof.
  intros H. destruct (H libm0 1) as (_ & Hc & _); [lia|].
  apply (Coeffs_assigned_iff libm0 tables0 T_c 1) in Hc as [Hc|Hc].
  - apply tables0_assigned in Hc. discriminate.
  - cbn in Hc. lia.
Qed.

(** ** Effects *)

Lemma bind_ret_l {A B} (a : A) (f : A -> M B) : bind (ret a) f = f a.
Proof. unfold bind, ret. now destruct (f a). Qed.

Lemma bind_events_ok {A B} (l : list event) (a : A) (f : A -> M B) :
  bind (l, Ok a) f = (l ++ fst (f a), snd (f a)).
Proof. unfold bind. now destruct (f a). Qed.

Lemma rd_in_range (t : tbl) (l : list float) (i : Z) :
  0 <= i < Z.of_nat (length l) -> rd t l i = ret l.[i].
Proof.
  intros H. unfold rd.
  replace (0 <=? i) with true by (symmetry; apply Z.leb_le; lia).
  replace (i <? Z.of_nat (length l)) with true
    by (symmetry; apply Z.ltb_lt; lia).
  reflexivity.
Qed.

Lemma rd_out_of_range (t : tbl) (l : list float) (i : Z) :
  Z.of_nat (length l) <= i -> rd t l i = ([], Fault t i).
Proof.
  intros H. unfold rd.
  replace (i <? Z.of_nat (length l)) with false
    by (symmetry; apply Z.ltb_ge; lia).
  now rewrite andb_false_r.
Qed.

(** A loop whose body always returns: its events are those of the
    iterations, in order, and its value is the one of the pure loop. *)
Lemma for_m_events {S : Type} (Inv : Z -> S -> Prop) (body : Z -> S -> M S)
    (f : Z -> S -> S) (ev : Z -> list event) (lo hi : Z) :
  (forall i s, lo <= i < hi -> Inv i s ->
     body i s = (ev i, Ok (f i s)) /\ Inv (i + 1) (f i s)) ->
  forall (k : nat) (i : Z) (s : S),
    k = Z.to_nat (hi - i) -> lo <= i -> Inv i s ->
    for_m k i hi 1 body s
    = (flat_map ev (Zrange i hi), Ok (for_loop k i hi 1 f s)).
Proof.
  intros Hb. induction k as [|k IH]; intros i s Hk Hi HI.
  - rewrite Zrange_nil by lia. reflexivity.
  - destruct (Hb i s) as [E HI']; [lia | exact HI |].
    rewrite for_m_step, for_loop_step, Zrange_cons by lia.
    rewrite E, bind_events_ok, IH by (try lia; exact HI').
    reflexivity.
Qed.

(** ** EMTP Series Evaluator *)

Section JeFacts.

Variable L : libm.

Lemma Je_tables_step_inv (a th : float) (i : Z) (t : etabs) :
  0 <= i < 32 -> Je_tables_inv L a th i t ->
  Je_tables_inv L a th (i + 1) (Je_tables_step L a th i t).
Proof.
  intros Hi ((H1 & H2 & H3) & H). unfold Je_tables_inv, Je_tables_step.
  cbn [ap e_cthp e_sthp]. rewrite !length_put. split; [auto|].
  intros n Hn. destruct (Z.eq_dec n i) as [->|Hne].
  - rewrite !at_put_eq by lia. auto.
  - rewrite !at_put_ne by lia. apply H. lia.
Qed.

Lemma Je_tables_body_eq (a th : float) (i : Z) (t : etabs) :
  0 <= i < 32 -> Je_tables_inv L a th i t ->
  Je_tables_body L a th i t
  = (Je_diag L a th i, Ok (Je_tables_step L a th i t)).
Proof.
  intros Hi ((H1 & H2 & H3) & _). unfold Je_tables_body, Je_diag.
  cbn [ap e_cthp e_sthp]. rewrite !at_put_eq by lia.
  fold (Je_tables_step L a th i t).
  destruct (is_nan _ || is_nan _ || is_nan _); reflexivity.
Qed.

Lemma Je_tables_inv_0 (a th : float) :
  Je_tables_inv L a th 0 (ETabs (zeros 32) (zeros 32) (zeros 32)).
Proof. split; [now vm_compute | intros n Hn; lia]. Qed.

Lemma Je_tables_final (a th : float) :
  Je_tables_inv L a th 32 (Je_tables L a th).
Proof.
  unfold Je_tables. apply for_range_inv; [lia | apply Je_tables_inv_0 |].
  intros i t Hi. now apply Je_tables_step_inv.
Qed.

(** [Je] as a value and a list of diagnostics. *)
Lemma Je_eq (g : globals) (p q : float) :
  let a := sqrt (p * p + q * q) in
  let th := m_atan2 L q p in
  Je L g p q
  = (flat_map (Je_diag L a th) (Zrange 0 32),
     Ok (Cx (Je_P L g (Je_tables L a th) th (m_log L a))
            (Je_Q g (Je_tables L a th) th (m_log L a)))).
Proof.
  intros a th. unfold Je, for_range_m. fold a th.
  rewrite trip_count_1.
  rewrite (for_m_events (Je_tables_inv L a th) _ (Je_tables_step L a th)
             (Je_diag L a th) 0 32);
    [| intros i t Hi HI; split;
       [now apply Je_tables_body_eq | now apply Je_tables_step_inv]
     | reflexivity | lia | apply Je_tables_inv_0].
  rewrite bind_events_ok. cbn [ret fst snd]. rewrite app_nil_r.
  unfold Je_tables, for_range. rewrite trip_count_1. reflexivity.
Qed.

(** A not-a-number in the power table at index 1 reaches both parts of
    the value. *)
Lemma Je_P_nan (g : globals) (t : etabs) (th lna : float) :
  (ap t).[1] = nan -> Je_P L g t th lna = nan.
Proof.
  intros H. unfold Je_P. cbv zeta. rewrite H.
  repeat first [rewrite mul_nan_l | rewrite mul_nan_r | rewrite sub_nan_r
               | rewrite add_nan_l | rewrite sub_nan_l | rewrite add_nan_r].
  reflexivity.
Qed.

Lemma Je_Q_nan (g : globals) (t : etabs) (th lna : float) :
  (ap t).[1] = nan -> Je_Q g t th lna = nan.
Proof.
  intros H. unfold Je_Q. cbv zeta. rewrite H.
  repeat first [rewrite mul_nan_l | rewrite mul_nan_r | rewrite sub_nan_r
               | rewrite add_nan_l | rewrite sub_nan_l | rewrite add_nan_r].
  reflexivity.
Qed.

(** C7. [Je] never ends the process: for every input it returns a value,
    after printing one diagnostic for each index [n] of [0..31] at which
    the power, cosine or sine table entry is not-a-number, and nothing
    else.  The value may be not-a-number: it is whenever [pow(a, 1)] is. *)
Theorem Je_tolerates_nan (g : globals) (p q : float) :
  let a := sqrt (p * p + q * q) in
  let th := m_atan2 L q p in
  exists v : complex,
    Je L g p q = (flat_map (Je_diag L a th) (Zrange 0 32), Ok v)
    /\ (is_nan (m_pow L a (d_of_int 1)) = true ->
        real v = nan /\ imag v = nan).
Proof.
  intros a th. eexists. split; [apply Je_eq|].
  intros H. apply is_nan_eq in H. cbn [real imag].
  destruct (Je_tables_final a th) as [_ Ht].
  destruct (Ht 1) as (Hap & _); [lia|]. rewrite <- Hap in H.
  split; [now apply Je_P_nan | now apply Je_Q_nan].
Qed.

End JeFacts.

(** ** What the evaluators read of the coefficient tables *)

Section Reads.

Variable L : libm.

Ltac use_agreement Hb Hc Hd g :=
  repeat match goal with
    | |- context [at_ (b g) ?n] => rewrite (Hb n) by lia
    | |- context [at_ (c g) ?n] => rewrite (Hc n) by (split; [lia|reflexivity])
    | |- context [at_ (d g) ?n] => rewrite (Hd n) by (split; [lia|reflexivity])
    end.

Lemma Je_P_frame (g g' : globals) (t : etabs) (th lna : float) :
  agree_on_Je_reads g g' -> Je_P L g t th lna = Je_P L g' t th lna.
Proof.
  intros H.
  pose proof (fun n => H T_b n) as Hb.
  pose proof (fun n => H T_c n) as Hc.
  pose proof (fun n => H T_d n) as Hd.
  cbn [Je_reads table] in Hb, Hc, Hd.
  unfold Je_P. cbv zeta. use_agreement Hb Hc Hd g. reflexivity.
Qed.

Lemma Je_Q_frame (g g' : globals) (t : etabs) (th lna : float) :
  agree_on_Je_reads g g' -> Je_Q g t th lna = Je_Q g' t th lna.
Proof.
  intros H.
  pose proof (fun n => H T_b n) as Hb.
  pose proof (fun n => H T_c n) as Hc.
  pose proof (fun n => H T_d n) as Hd.
  cbn [Je_reads table] in Hb, Hc, Hd.
  unfold Je_Q. cbv zeta. use_agreement Hb Hc Hd g. reflexivity.
Qed.

Lemma Je_reads_stored (t : tbl) (n : Z) : Je_reads t n -> Coeffs_stores t n.
Proof. destruct t; cbn; lia. Qed.

(** [J] reads none of [b], [c], [d]. *)
Lemma J_ignores_coefficients (g : globals) (p q : float)
    (b' c' d' : list float) (a' : list (tbl * Z)) :
  J L (Globals (F g) (SI g) (PX g) b' c' d' a') p q = J L g p q.
Proof. reflexivity. Qed.

(** C10. [Je] depends on the coefficient tables through [b[1..25]], the
    even entries [d[2..24]] and the even entries [c[2..22]] only: two
    states that agree there give the same result, diagnostics included.
    Each of these entries is one [Coeffs] stores to.  No odd entry of [c]
    and not [d[1]] is among them, and [J] reads no coefficient at all
    ([CI] is not even given the tables). *)
Theorem Je_reads_what_Coeffs_stores (g g' g0 : globals) (p q : float)
    (t : tbl) (n : Z) :
  agree_on_Je_reads g g' ->
  Je L g p q = Je L g' p q
  /\ (Je_reads t n -> In (t, n) (assigned (Coeffs L g0)))
  /\ (Z.odd n = true -> ~ Je_reads T_c n)
  /\ ~ Je_reads T_d 1
  /\ J L (Globals (F g) (SI g) (PX g) (b g') (c g') (d g') (assigned g')) p q
     = J L g p q.
Proof.
  intros H. split; [|split; [|split; [|split]]].
  - rewrite !Je_eq. now rewrite (Je_P_frame g g'), (Je_Q_frame g g').
  - intros Hr. apply Coeffs_assigned_iff. right. now apply Je_reads_stored.
  - intros Ho [_ He]. rewrite <- Z.negb_odd, Ho in He. discriminate.
  - cbn. lia.
  - apply J_ignores_coefficients.
Qed.

End Reads.

(** ** Asymptotic Series Evaluator *)

Lemma rd_cases (t : tbl) (l : list float) (i : Z) :
  (0 <= i < Z.of_nat (length l) /\ rd t l i = ret l.[i])
  \/ rd t l i = ([], Fault t i).
Proof.
  unfold rd. destruct (0 <=? i) eqn:E1, (i <? Z.of_nat (length l)) eqn:E2;
    cbn [andb]; auto.
  left. split; [|reflexivity].
  apply Z.leb_le in E1. apply Z.ltb_lt in E2. lia.
Qed.

(** The read at the head of a computation is in range, or the
    computation faults. *)
Ltac head_read :=
  lazymatch goal with
  | |- bind (rd ?t ?l ?i) _ = _ \/ _ =>
      let E := fresh "E" in
      destruct (rd_cases t l i) as [[_ E] | E]; rewrite E;
      [rewrite bind_ret_l | right; reflexivity]
  end.

Ltac any_read :=
  match goal with
  | |- context [rd ?t ?l ?i] =>
      let E := fresh "E" in
      destruct (rd_cases t l i) as [[_ E] | E]; rewrite E;
      [ | right; reflexivity]
  end.

Ltac run_reads := repeat first [rewrite bind_ret_l | head_read].

Lemma jbody_cases (l : jloop) (g : globals) (t : jtabs) (ns : Z)
    (st : jstate l) :
  jbody l g t ns st
  = (if jnan l (jacc l g t ns st)
     then (jdiag l g t ns (jacc l g t ns st), Exit 0)
     else ([], Ok (jacc l g t ns st)))
  \/ faulted (snd (jbody l g t ns st)) = true.
Proof.
  destruct l; cbn [jbody jstate] in *.
  - destruct st as [[[s2 s2p] nf] nsign].
    unfold body_s2. cbv zeta. run_reads.
    cbn [jnan jacc jterm].
    destruct (is_nan _ || is_nan _).
    + repeat any_read. left. reflexivity.
    + left. reflexivity.
  - destruct st as [[[s2 s2p] nf] nsign].
    unfold body_s4. cbv zeta. run_reads.
    cbn [jnan jacc jterm].
    destruct (is_nan _ || is_nan _); left; reflexivity.
  - destruct st as [[sg nsign] nden].
    unfold body_g1, body_g13. cbv zeta. run_reads.
    cbn [jnan jacc jterm].
    destruct (is_nan _); left; reflexivity.
  - destruct st as [[sg nsign] nden].
    unfold body_g3, body_g13. cbv zeta. run_reads.
    cbn [jnan jacc jterm].
    destruct (is_nan _); left; reflexivity.
  - destruct st as [[[sg nsign] nfrac] nf].
    unfold body_g2, body_g24. cbv zeta. run_reads.
    cbn [jnan jacc jterm].
    destruct (is_nan _); left; reflexivity.
  - destruct st as [[[sg nsign] nfrac] nf].
    unfold body_g4, body_g24. cbv zeta. run_reads.
    cbn [jnan jacc jterm].
    destruct (is_nan _); left; reflexivity.
Qed.

Lemma bind_ext {A B} (m : M A) (f f' : A -> M B) :
  (forall a, f a = f' a) -> bind m f = bind m f'.
Proof. intros H. destruct m as [l [a| |]]; cbn; now rewrite ?H. Qed.

Lemma for_m_run_steps {S : Type} (body : Z -> S -> M S) (hi : Z) :
  forall (k : nat) (i : Z) (s : S),
    k = Z.to_nat (hi - i) ->
    for_m k i hi 1 body s = run_steps body (Zrange i hi) s.
Proof.
  induction k as [|k IH]; intros i s Hk.
  - rewrite Zrange_nil by lia. reflexivity.
  - rewrite for_m_step, Zrange_cons by lia. cbn [run_steps].
    apply bind_ext. intros s'. apply IH. lia.
Qed.

Lemma J_loop_steps {S : Type} (body : Z -> S -> M S) (s : S) :
  for_range_m 0 Ns 1 body s = run_steps body [0; 1; 2; 3; 4; 5; 6; 7] s.
Proof.
  unfold for_range_m. rewrite trip_count_1.
  now rewrite for_m_run_steps by reflexivity.
Qed.

(** C4 (as the code has it).  Each of the six loops of [J] runs its body
    for [ns = 0..7], and an iteration whose reads are in range
    accumulates, then tests every sum of its loop for not-a-number: when
    the test fires it prints the label of the loop, the iteration index
    [ns] and the term index [np] (the first loop, and only it, adds a
    line of intermediate values) and ends the process with [exit(0)];
    otherwise the loop goes on with the new state and prints nothing. *)
Theorem J_nan_checks (l : jloop) (g : globals) (t : jtabs) (ns : Z)
    (st : jstate l) :
  faulted (snd (jbody l g t ns st)) = false ->
  (forall s, for_range_m 0 Ns 1 (jbody l g t) s
             = run_steps (jbody l g t) [0; 1; 2; 3; 4; 5; 6; 7] s)
  /\ jbody l g t ns st
     = (if jnan l (jacc l g t ns st)
        then (jdiag l g t ns (jacc l g t ns st), Exit 0)
        else ([], Ok (jacc l g t ns st))).
Proof.
  intros H. split; [intros s; apply J_loop_steps|].
  destruct (jbody_cases l g t ns st) as [E|E]; [exact E|].
  rewrite E in H. discriminate.
Qed.

Lemma J_nan_checks_witness :
  jbody L_g3 tables0 nan_tabs 2 (jinit L_g3)
  = (map (pair Cerr) [Str "g3 : "; Int 2; sp; Int 11; nl], Exit 0).
Proof.
  refine (eq_trans (proj2 (J_nan_checks L_g3 tables0 nan_tabs 2 (jinit L_g3) _)) _);
    vm_compute; reflexivity.
Defined.

(** C4 as stated fails on the diagnostic: when the second loop detects a
    not-a-number it prints the two indices and no intermediate value. *)
Lemma s4_diagnostic_has_no_values :
  jnan L_s4 (jacc L_s4 tables0 nan_tabs 0 (jinit L_s4)) = true
  /\ body_s4 tables0 nan_tabs 0 (jinit L_s4)
     = (map (pair Cerr) [Str "4 4p : "; Int 0; sp; Int 4; nl], Exit 0)
  /\ existsb is_value (fst (body_s4 tables0 nan_tabs 0 (jinit L_s4))) = false.
Proof. vm_compute. auto. Qed.

(** *** Where [J] stops *)

Lemma stopped_not_ok {A} (r : result A) (e : stop) (a : A) :
  stopped r = Some e -> r <> Ok a.
Proof. intros H ->. discriminate. Qed.

Lemma stopped_bind {A B} (m : M A) (f : A -> M B) (e : stop) :
  stopped (snd m) = Some e -> stopped (snd (bind m f)) = Some e.
Proof. destruct m as [l [a| |]]; cbn; intros H; now try discriminate. Qed.

Lemma for_m_stops {S : Type} (Inv : Z -> S -> Prop) (Q : stop -> Prop)
    (body : Z -> S -> M S) (lo hi : Z) (s : S) :
  lo <= hi -> Inv lo s ->
  (forall i s, lo <= i < hi -> Inv i s ->
     (exists s', snd (body i s) = Ok s' /\ Inv (i + 1) s')
     \/ (exists e, stopped (snd (body i s)) = Some e /\ Q e)) ->
  (exists s', snd (for_range_m lo hi 1 body s) = Ok s' /\ Inv hi s')
  \/ (exists e, stopped (snd (for_range_m lo hi 1 body s)) = Some e /\ Q e).
Proof.
  intros Hle H0 Hstep. unfold for_range_m. rewrite trip_count_1.
  assert (forall (k : nat) (i : Z) (s : S),
             k = Z.to_nat (hi - i) -> lo <= i <= hi -> Inv i s ->
             (exists s', snd (for_m k i hi 1 body s) = Ok s' /\ Inv hi s')
             \/ (exists e, stopped (snd (for_m k i hi 1 body s)) = Some e
                           /\ Q e)) as H.
  { induction k as [|k IH]; intros i s0 Hk Hi HI.
    - left. exists s0. replace hi with i by lia. auto.
    - rewrite for_m_step by lia.
      destruct (Hstep i s0) as [(s' & E & HI') | (e & E & HQ)];
        [lia | exact HI | |].
      + rewrite (snd_bind_ok _ _ _ E). apply IH; [lia | lia | exact HI'].
      + right. exists e. split; [now apply stopped_bind | exact HQ]. }
  apply H; [reflexivity | lia | exact H0].
Qed.

Section JFacts.

Variable L : libm.

Lemma J_tables_lengths (r rh th : float) :
  jtabs_lengths (J_tables L r rh th).
Proof.
  unfold J_tables.
  apply (for_range_inv (fun _ t => jtabs_lengths t)); [lia | now vm_compute |].
  intros i t _ (H1 & H2 & H3 & H4). unfold jtabs_lengths.
  cbn [rp rhp cthp sthp]. now rewrite !length_put.
Qed.

(** The first loop stays in range: each iteration goes on or ends the
    process. *)
Lemma body_s2_step (g : globals) (t : jtabs) (ns : Z)
    (st : float * float * Z * Z) :
  Z.of_nat (length (F g)) = Nf -> jtabs_lengths t ->
  0 <= ns < 8 -> snd (fst st) = 1 + 2 * ns ->
  (exists st', snd (body_s2 g t ns st) = Ok st'
               /\ snd (fst st') = 1 + 2 * (ns + 1))
  \/ (exists e, stopped (snd (body_s2 g t ns st)) = Some e /\ e = SExit 0).
Proof.
  unfold Nf. intros HF (H1 & H2 & H3 & H4) Hns Hnf.
  destruct st as [[[s2 s2p] nf] nsign]. cbn [fst snd] in Hnf.
  unfold body_s2. cbv zeta.
  rewrite !rd_in_range by lia. rewrite !bind_ret_l.
  destruct (is_nan _ || is_nan _).
  - right. eexists. split; reflexivity.
  - left. eexists. split; [reflexivity|]. cbn [fst snd]. lia.
Qed.

(** The second loop stays in range for [ns = 0..6] ... *)
Lemma body_s4_step (g : globals) (t : jtabs) (ns : Z)
    (st : float * float * Z * Z) :
  Z.of_nat (length (F g)) = Nf -> jtabs_lengths t ->
  0 <= ns < 7 -> snd (fst st) = 2 + 2 * ns ->
  (exists st', snd (body_s4 g t ns st) = Ok st'
               /\ snd (fst st') = 2 + 2 * (ns + 1))
  \/ (exists e, stopped (snd (body_s4 g t ns st)) = Some e /\ e = SExit 0).
Proof.
  unfold Nf. intros HF (H1 & H2 & H3 & H4) Hns Hnf.
  destruct st as [[[s4 s4p] nf] nsign]. cbn [fst snd] in Hnf.
  unfold body_s4. cbv zeta.
  rewrite !rd_in_range by lia. rewrite !bind_ret_l.
  destruct (is_nan _ || is_nan _).
  - right. eexists. split; reflexivity.
  - left. eexists. split; [reflexivity|]. cbn [fst snd]. lia.
Qed.

(** ... and in its last iteration, [ns = 7], it reads [rhp[32]]. *)
Lemma body_s4_last (g : globals) (t : jtabs) (st : float * float * Z * Z) :
  Z.of_nat (length (F g)) = Nf -> jtabs_lengths t ->
  snd (fst st) = 2 + 2 * 7 ->
  body_s4 g t 7 st = ([], Fault T_rhp 32).
Proof.
  unfold Nf. intros HF (H1 & H2 & H3 & H4) Hnf.
  destruct st as [[[s4 s4p] nf] nsign]. cbn [fst snd] in Hnf.
  unfold body_s4. cbv zeta.
  rewrite !(rd_in_range T_F) by lia. rewrite !bind_ret_l.
  change (4 + 4 * 7) with 32.
  rewrite (rd_out_of_range T_rhp) by lia. reflexivity.
Qed.

(** The sixth loop reads [rhp[32]] in its last iteration as well. *)
Lemma body_g4_last (g : globals) (t : jtabs) (st : float * Z * Z * Z) :
  builder_lengths g -> jtabs_lengths t ->
  jindex_inv L_g4 7 st ->
  body_g4 g t 7 st = ([], Fault T_rhp 32).
Proof.
  unfold Nf. intros (HF & HSI & _) (H1 & H2 & H3 & H4).
  unfold Nf in HF. unfold Nsi in HSI.
  destruct st as [[[sg nsign] nfrac] nf]. cbn [jindex_inv]. intros [-> ->].
  unfold body_g4, body_g24. cbv zeta.
  rewrite (rd_in_range T_SI), !(rd_in_range T_F) by lia.
  rewrite !bind_ret_l. change (4 + 4 * 7) with 32.
  rewrite (rd_out_of_range T_rhp) by lia. reflexivity.
Qed.

(** X12. Every other read of [J] is in range: an iteration whose term index
    is below 32 does not fault, and it leaves the index variables as the
    next iteration expects them.  (The factorial indices stay below 19,
    those of [PX] below 34, those of [SI] below 18.) *)
Lemma jbody_in_range (l : jloop) (g : globals) (t : jtabs) (ns : Z)
    (st : jstate l) :
  builder_lengths g -> jtabs_lengths t ->
  0 <= ns < 8 -> jterm l ns < 32 -> jindex_inv l ns st ->
  faulted (snd (jbody l g t ns st)) = false
  /\ forall st', snd (jbody l g t ns st) = Ok st' -> jindex_inv l (ns + 1) st'.
Proof.
  intros (HF & HSI & HPX) (H1 & H2 & H3 & H4) Hns Hnp HI.
  unfold Nf in HF. unfold Nsi in HSI, HPX.
  destruct l; cbn [jbody jstate jterm jindex_inv] in *.
  - destruct st as [[[s2 s2p] nf] nsign]. unfold body_s2. cbv zeta.
    rewrite !rd_in_range by lia. rewrite !bind_ret_l.
    destruct (is_nan _ || is_nan _); (split; [reflexivity|]);
      cbn; intros st' [= <-]; lia.
  - destruct st as [[[s2 s2p] nf] nsign]. unfold body_s4. cbv zeta.
    rewrite !rd_in_range by lia. rewrite !bind_ret_l.
    destruct (is_nan _ || is_nan _); (split; [reflexivity|]);
      cbn; intros st' [= <-]; lia.
  - destruct st as [[sg nsign] nden]. unfold body_g1, body_g13. cbv zeta.
    rewrite !rd_in_range by lia. rewrite !bind_ret_l.
    destruct (is_nan _); (split; [reflexivity|]);
      cbn; intros st' [= <-]; lia.
  - destruct st as [[sg nsign] nden]. unfold body_g3, body_g13. cbv zeta.
    rewrite !rd_in_range by lia. rewrite !bind_ret_l.
    destruct (is_nan _); (split; [reflexivity|]);
      cbn; intros st' [= <-]; lia.
  - destruct st as [[[sg nsign] nfrac] nf]. unfold body_g2, body_g24.
    cbv zeta. rewrite !rd_in_range by lia. rewrite !bind_ret_l.
    destruct (is_nan _); (split; [reflexivity|]);
      cbn; intros st' [= <-]; lia.
  - destruct st as [[[sg nsign] nfrac] nf]. unfold body_g4, body_g24.
    cbv zeta. rewrite !rd_in_range by lia. rewrite !bind_ret_l.
    destruct (is_nan _); (split; [reflexivity|]);
      cbn; intros st' [= <-]; lia.
Qed.

(** Whatever the arguments, [J] does not return: a not-a-number test ends
    the process in one of the first 15 iterations, or the 16th reads
    [rhp[32]]. *)
Lemma J_stops (g : globals) (p q : float) :
  Z.of_nat (length (F g)) = Nf ->
  exists e, stopped (snd (J L g p q)) = Some e /\ J_stop e.
Proof.
  intros HF. unfold J.
  set (t := J_tables L _ _ _).
  assert (jtabs_lengths t) as Ht by apply J_tables_lengths.
  destruct (for_m_stops
              (fun ns (st : float * float * Z * Z) => snd (fst st) = 1 + 2 * ns)
              (fun e => e = SExit 0) (body_s2 g t) 0 Ns
              (0%float, 0%float, 1, 1))
    as [(st1 & E1 & _) | (e & E1 & ->)];
    [unfold Ns; lia | reflexivity
     | intros i s Hi HI; now apply body_s2_step | |].
  2: { exists (SExit 0). split; [now apply stopped_bind | now left]. }
  rewrite (snd_bind_ok _ _ _ E1). destruct st1 as [[[s2 s2p] nf1] nsign1].
  destruct (for_m_stops
              (fun ns (st : float * float * Z * Z) =>
                 snd (fst st) = 2 + 2 * ns /\ ns <= 7)
              J_stop (body_s4 g t) 0 Ns (0%float, 0%float, 2, 1))
    as [(st2 & _ & _ & Habs) | (e & E2 & He)];
    [unfold Ns; lia | split; [reflexivity | lia] | | unfold Ns in Habs; lia |].
  - intros i s Hi [HI _]. unfold Ns in Hi.
    destruct (Z.eq_dec i 7) as [-> | Hne].
    + right. exists (SFault T_rhp 32).
      rewrite body_s4_last by assumption. split; [reflexivity | now right].
    + destruct (body_s4_step g t i s) as [(st' & E & HI') | (e & E & ->)];
        [assumption | assumption | lia | assumption | |].
      * left. exists st'. split; [exact E | split; [exact HI' | lia]].
      * right. exists (SExit 0). split; [exact E | now left].
  - exists e. split; [now apply stopped_bind | exact He].
Qed.

End JFacts.

Lemma tables0_lengths :
  Z.of_nat (length (F tables0)) = Nf
  /\ Z.of_nat (length (SI tables0)) = Nsi
  /\ Z.of_nat (length (PX tables0)) = Nsi + 1.
Proof. vm_compute. auto. Qed.

Lemma tables0_F_length (L : libm) :
  Z.of_nat (length (F (Coeffs L tables0))) = Nf.
Proof.
  destruct (Coeffs_keeps_tables L tables0) as (-> & _).
  apply tables0_lengths.
Qed.

Lemma tables0_builder_lengths (L : libm) :
  builder_lengths (Coeffs L tables0).
Proof.
  unfold builder_lengths.
  destruct (Coeffs_keeps_tables L tables0) as (-> & -> & ->).
  apply tables0_lengths.
Qed.

(** C9 fails on the code.  In the second and in the sixth loop of [J] the
    term index of the last iteration is [np = 4 + 4*7 = 32], and [rhp]
    has 32 entries: that iteration reads [rhp[32]].  So no call of [J]
    returns: either a not-a-number test ends the process earlier, or the
    read outside [rhp] happens. *)
Theorem J_reads_rhp_32 (L : libm) (p q : float) :
  let g := Coeffs L tables0 in
  let r := sqrt (p * p + q * q) in
  let t := J_tables L r (0.5 * r) (m_atan2 L q p) in
  (jterm L_s4 7 = 32 /\ jterm L_g4 7 = 32)
  /\ Z.of_nat (length (rhp t)) = 32
  /\ (forall s4 s4p nsign,
        body_s4 g t 7 (s4, s4p, 2 + 2 * 7, nsign) = ([], Fault T_rhp 32))
  /\ (forall sg4 nsign,
        body_g4 g t 7 (sg4, nsign, 3 + 2 * 7, 2 + 2 * 7)
        = ([], Fault T_rhp 32))
  /\ exists e, stopped (snd (J L g p q)) = Some e
               /\ (e = SExit 0 \/ e = SFault T_rhp 32).
Proof.
  intros g r t. split; [split; reflexivity|].
  pose proof (J_tables_lengths L r (0.5 * r) (m_atan2 L q p)) as Ht.
  fold t in Ht. split; [apply Ht|]. split; [|split].
  - intros s4 s4p nsign.
    apply body_s4_last; [apply tables0_F_length | exact Ht | reflexivity].
  - intros sg4 nsign.
    apply body_g4_last;
      [apply tables0_builder_lengths | exact Ht | split; reflexivity].
  - apply J_stops, tables0_F_length.
Qed.

(** C8 fails on the code for [J]: neither [J(p, q)] nor [J(p, -q)] has a
    value to compare. *)
Theorem J_has_no_value (L : libm) (p q : float) (v : complex) :
  snd (J L (Coeffs L tables0) p q) <> Ok v
  /\ snd (J L (Coeffs L tables0) p (- q)) <> Ok v.
Proof.
  pose proof (tables0_F_length L) as HF.
  generalize dependent (Coeffs L tables0). intros g HF.
  split.
  - destruct (J_stops L g p q HF) as (e & E & _).
    exact (stopped_not_ok _ _ _ E).
  - destruct (J_stops L g p (- q) HF) as (e & E & _).
    exact (stopped_not_ok _ _ _ E).
Qed.

(** The driver therefore never reaches [Je]. *)
Lemma main_stops_in_J (L : libm) (argv_p argv_q : option float) :
  exists e, stopped (snd (main L argv_p argv_q)) = Some e /\ J_stop e.
Proof.
  unfold main.
  set (p := default 5%float argv_p). set (q := default 1%float argv_q).
  pose proof (tables0_F_length L) as HF.
  fold tables0. generalize dependent (Coeffs L tables0). intros g HF.
  destruct (CI_returns L p q) as [Jc EJc]. rewrite (snd_bind_ok _ _ _ EJc).
  unfold cerr at 1. unfold emit. rewrite bind_events_ok. cbn [snd].
  destruct (J_stops L g p q HF) as (e & E & He).
  exists e. split; [now apply stopped_bind | exact He].
Qed.

(** With the stand-in library, at the default arguments [p = 5], [q = 1],
    the sums stay finite and [J] reaches the read of [rhp[32]]. *)
Example J_default_arguments :
  J libm0 (Coeffs libm0 tables0) 5 1 = ([], Fault T_rhp 32).
Proof. vm_compute. reflexivity. Qed.

(** At [p = 2^37], [q = 0] the first loop detects a not-a-number in its
    last iteration; the diagnostic then reads [F[17]] and [F[18]]. *)
Example J_large_argument :
  snd (J libm0 (Coeffs libm0 tables0) 0x1p37 0) = Exit 0
  /\ In (Cerr, Int 17) (fst (J libm0 (Coeffs libm0 tables0) 0x1p37 0))
  /\ In (Cerr, Dbl (F tables0).[18])
        (fst (J libm0 (Coeffs libm0 tables0) 0x1p37 0)).
Proof. vm_compute. intuition. Qed.

(** At the origin [Je] returns not-a-number without any diagnostic: no
    table entry is not-a-number there, but [log 0] is infinite. *)
Example Je_at_origin :
  Je libm0 (Coeffs libm0 tables0) 0 0 = ([], Ok (Cx nan nan)).
Proof. vm_compute. reflexivity. Qed.

(** With a not-a-number argument every table entry but [pow(a, 0)] is
    not-a-number: [Je] prints its 32 diagnostics and returns. *)
Example Je_nan_argument :
  snd (Je libm0 (Coeffs libm0 tables0) nan 1) = Ok (Cx nan nan)
  /\ length (fst (Je libm0 (Coeffs libm0 tables0) nan 1)) = (32 * 7)%nat.
Proof. vm_compute. auto. Qed.

(** ** Symmetry of the EMTP series in [q] *)

Section JeSymmetry.

Variable L : libm.

(** What the C library is taken to provide: [atan2] odd in its first
    argument, [cos] even, [sin] odd, sign for sign. *)
Hypothesis atan2_odd : forall y x, m_atan2 L (- y) x = (- m_atan2 L y x)%float.
Hypothesis cos_even : forall x, m_cos L (- x) = m_cos L x.
Hypothesis sin_odd : forall x, m_sin L (- x) = (- m_sin L x)%float.

Lemma Je_ap (a th : float) (n : Z) :
  0 <= n < 32 -> (ap (Je_tables L a th)).[n] = m_pow L a (d_of_int n).
Proof. intros H. now apply (Je_tables_final L a th). Qed.

Lemma Je_cthp (a th : float) (n : Z) :
  0 <= n < 32 ->
  (e_cthp (Je_tables L a th)).[n] = m_cos L (d_of_int n * th).
Proof. intros H. now apply (Je_tables_final L a th). Qed.

Lemma Je_sthp (a th : float) (n : Z) :
  0 <= n < 32 ->
  (e_sthp (Je_tables L a th)).[n] = m_sin L (d_of_int n * th).
Proof. intros H. now apply (Je_tables_final L a th). Qed.

Ltac table_values :=
  rewrite ?Je_ap, ?Je_cthp, ?Je_sthp by lia.

Ltac push_signs :=
  rewrite ?mul_opp_r; rewrite ?cos_even, ?sin_odd;
  rewrite ?mul_opp_l; rewrite ?mul_opp_r; rewrite ?opp_involutive.

Lemma Je_diag_even (a th : float) (n : Z) :
  Je_diag L a (- th) n = Je_diag L a th n.
Proof.
  unfold Je_diag. cbv zeta.
  now rewrite mul_opp_r, cos_even, sin_odd, is_nan_opp.
Qed.

Lemma Je_P_even (g : globals) (a th lna : float) :
  Je_P L g (Je_tables L a (- th)) (- th) lna
  = Je_P L g (Je_tables L a th) th lna.
Proof. unfold Je_P. cbv zeta. table_values. push_signs. reflexivity. Qed.

Lemma Je_Q_even (g : globals) (a th lna : float) :
  Je_Q g (Je_tables L a (- th)) (- th) lna
  = Je_Q g (Je_tables L a th) th lna.
Proof. unfold Je_Q. cbv zeta. table_values. push_signs. reflexivity. Qed.

(** X13. [Je(p, -q) = Je(p, q)], value and diagnostics, for a C library
    with an odd [atan2] (in its first argument), an even [cos] and an odd
    [sin]. *)
Lemma Je_even_in_q (g : globals) (p q : float) :
  Je L g p (- q) = Je L g p q.
Proof.
  rewrite !Je_eq. cbv zeta. rewrite mul_opp_opp, atan2_odd.
  rewrite Je_P_even, Je_Q_even.
  rewrite (flat_map_ext _ _ (Je_diag_even _ _)). reflexivity.
Qed.

End JeSymmetry.

(** ** Closed instances *)

Lemma tables0_coeff_lengths : coeff_lengths tables0.
Proof. vm_compute. auto. Qed.

Lemma Coeffs_recurrence_witness :
  coeff_rec libm0 (Coeffs libm0 tables0) 7.
Proof.
  refine (proj1 (proj2 (Coeffs_recurrence libm0 tables0 7 _ _)));
    [exact tables0_coeff_lengths | lia].
Defined.

(** For a [pow] with [pow(-1, 0) = 1] and [pow(-1, 1) = -1] the sign of
    [b[7]] is [+1]; the published exponent would make it [-1]. *)
Lemma sign_differs_at_7 (L : libm) :
  m_pow L (-1) 0 = 1%float -> m_pow L (-1) 1 = (-1)%float ->
  m_pow L (-1) (d_of_int (sign_exponent 7)) = 1%float
  /\ m_pow L (-1) (d_of_int (published_exponent 7)) = (-1)%float.
Proof. intros H0 H1. split; [exact H0 | exact H1]. Qed.

Example sign_differs_at_7_libm0 :
  m_pow libm0 (-1) (d_of_int (sign_exponent 7)) = 1%float
  /\ m_pow libm0 (-1) (d_of_int (published_exponent 7)) = (-1)%float.
Proof. apply sign_differs_at_7; vm_compute; reflexivity. Qed.

Lemma Je_reads_what_Coeffs_stores_witness :
  Je libm0 (Coeffs libm0 tables0) 0.5 0.25
  = Je libm0 (store T_c 1 7%float (Coeffs libm0 tables0)) 0.5 0.25.
Proof.
  refine (proj1 (Je_reads_what_Coeffs_stores libm0 (Coeffs libm0 tables0)
                   (store T_c 1 7%float (Coeffs libm0 tables0)) tables0
                   0.5 0.25 T_b 1 _)).
  generalize (Coeffs libm0 tables0). intros g t n H.
  destruct t; try contradiction; cbn [store table b c d];
    [reflexivity | | reflexivity].
  cbn [Je_reads] in H. symmetry. apply at_put_ne; lia.
Defined.

(** ** Loops with a stride *)

(** An invariant of a loop with any positive stride holds, when the loop
    ends, at the first index that fails the loop test. *)
Lemma for_range_inv_step {S : Type} (Inv : Z -> S -> Prop)
    (body : Z -> S -> S) (lo hi step : Z) (s : S) :
  0 < step -> lo < hi -> Inv lo s ->
  (forall i s, lo <= i < hi -> Inv i s -> Inv (i + step) (body i s)) ->
  exists i, hi <= i < hi + step
            /\ Inv i (for_range lo hi step body s).
Proof.
  intros Hstep Hlt H0 Hbody. unfold for_range.
  assert (forall (k : nat) (i : Z) (s : S),
             (trip_count i hi step <= k)%nat -> lo <= i < hi + step ->
             Inv i s ->
             exists i', hi <= i' < hi + step
                        /\ Inv i' (for_loop k i hi step body s)) as H.
  { induction k as [|k IH]; intros i s' Hk Hi HI.
    - exists i. split; [|exact HI]. split; [|lia].
      unfold trip_count in Hk.
      destruct (Z.lt_ge_cases i hi) as [Hc|Hc]; [|exact Hc].
      assert (1 <= (hi - i + step - 1) / step).
      { apply Z.div_le_lower_bound; lia. }
      lia.
    - destruct (Z.lt_ge_cases i hi) as [Hc|Hc].
      + rewrite for_loop_step by exact Hc. apply IH.
        * unfold trip_count in *.
          replace (hi - i + step - 1)
            with ((hi - (i + step) + step - 1) + 1 * step) in Hk by lia.
          rewrite Z.div_add in Hk by lia.
          assert (-1 <= (hi - (i + step) + step - 1) / step).
          { apply Z.div_le_lower_bound; lia. }
          lia.
        * lia.
        * apply Hbody; [lia | exact HI].
      + rewrite for_loop_done by exact Hc. exists i. split; [lia | exact HI]. }
  apply H; [lia | lia | exact H0].
Qed.

(** ** What the Table Builder stores to *)

Lemma Factorials_assigned_iff (g0 : globals) (t : tbl) (n : Z) :
  In (t, n) (assigned (Factorials g0))
  <-> In (t, n) (assigned g0) \/ Factorials_stores t n.
Proof.
  unfold Factorials.
  set (g1 := store T_F 0 1%float g0).
  set (g2 := for_range 1 Nf 1 _ g1).
  set (g3 := for_range 2 Nsi 1 _ g2).
  assert (F_assigned_inv g0 Nf g2) as H2.
  { apply for_range_inv; [unfold Nf; lia | |].
    - intros u k. cbn [g1 store assigned In]. rewrite pair_eq_iff.
      destruct u; intuition (try discriminate; try lia).
    - intros i g Hi IH u k. cbn [store assigned In].
      rewrite (IH u k), pair_eq_iff.
      destruct (Z.eq_dec k i) as [->|Hne];
        destruct u; intuition (try discriminate; try lia). }
  assert (SI_assigned_inv g0 Nsi g3) as H3.
  { apply for_range_inv; [unfold Nsi; lia | |].
    - intros u k. rewrite (H2 u k).
      destruct u; intuition (try discriminate; try lia).
    - intros i g Hi IH u k. cbn [store assigned In].
      rewrite (IH u k), pair_eq_iff.
      destruct (Z.eq_dec k i) as [->|Hne];
        destruct u; intuition (try discriminate; try lia). }
  destruct (for_range_inv_step (PX_assigned_inv g0)
              (fun n g => store T_PX n (prod_xsq n) g) 1 (Nsi + 1) 2 g3)
    as (i & Hi & Hodd & H4).
  - lia.
  - unfold Nsi. lia.
  - split; [reflexivity|]. intros u k. rewrite (H3 u k).
    destruct u; intuition (try discriminate; try lia).
  - intros i g Hi [Hodd IH]. split.
    + replace (i + 2) with (i + 2 * 1) by lia.
      now rewrite Z.odd_add_mul_2.
    + intros u k. cbn [store assigned In]. rewrite (IH u k), pair_eq_iff.
      assert (Z.odd (i + 1) = false) as Hev
        by (rewrite Z.odd_add, Hodd; reflexivity).
      destruct (Z.eq_dec k i) as [->|Hne];
        [|destruct (Z.eq_dec k (i + 1)) as [->|Hne']];
        destruct u; intuition (try discriminate; try congruence; try lia).
  - rewrite (H4 t n). unfold Factorials_stores, Nf, Nsi in *.
    assert (i = 103) as ->.
    { destruct (Z.eq_dec i 102) as [->|]; [discriminate Hodd | lia]. }
    destruct (Z.eq_dec n 102) as [->|];
      destruct t; intuition (try discriminate; try lia).
Qed.

(** ** What [J] reads of the tables of the Table Builder *)

Lemma rd_agree (t : tbl) (l l' : list float) (i : Z) :
  length l = length l' -> l.[i] = l'.[i] -> rd t l i = rd t l' i.
Proof. intros Hlen H. unfold rd. now rewrite Hlen, H. Qed.

Lemma odd_3_4 (ns : Z) : Z.odd (3 + 4 * ns) = true.
Proof.
  replace (3 + 4 * ns) with (1 + 2 * (1 + 2 * ns)) by lia.
  now rewrite Z.odd_add_mul_2.
Qed.

Lemma odd_5_4 (ns : Z) : Z.odd (5 + 4 * ns) = true.
Proof.
  replace (5 + 4 * ns) with (1 + 2 * (2 + 2 * ns)) by lia.
  now rewrite Z.odd_add_mul_2.
Qed.

Lemma jbody_frame (l : jloop) (g g' : globals) (t : jtabs) (ns : Z)
    (st : jstate l) :
  agree_on_J_reads g g' -> 0 <= ns < 8 -> jindex_inv l ns st ->
  jbody l g t ns st = jbody l g' t ns st.
Proof.
  intros [(LF & LSI & LPX) H] Hns HI.
  pose proof (fun n => H T_F n) as HF.
  pose proof (fun n => H T_SI n) as HSI.
  pose proof (fun n => H T_PX n) as HPX.
  cbn [J_reads table] in HF, HSI, HPX.
  destruct l; cbn [jbody jstate jindex_inv] in *.
  - destruct st as [[[s2 s2p] nf] nsign]. unfold body_s2. cbv zeta.
    rewrite (rd_agree T_F (F g) (F g') nf),
      (rd_agree T_F (F g) (F g') (nf + 1)),
      (rd_agree T_F (F g) (F g') (nf + 2)),
      (rd_agree T_F (F g) (F g') (nf + 2 + 1))
      by (try exact LF; apply HF; lia).
    reflexivity.
  - destruct st as [[[s4 s4p] nf] nsign]. unfold body_s4. cbv zeta.
    rewrite (rd_agree T_F (F g) (F g') nf),
      (rd_agree T_F (F g) (F g') (nf + 1))
      by (try exact LF; apply HF; lia).
    reflexivity.
  - destruct st as [[sg nsign] nden]. unfold body_g1, body_g13. cbv zeta.
    rewrite (rd_agree T_PX (PX g) (PX g') nden)
      by first [exact LPX
               | apply HPX; subst nden; split; [lia | apply odd_3_4]].
    reflexivity.
  - destruct st as [[sg nsign] nden]. unfold body_g3, body_g13. cbv zeta.
    rewrite (rd_agree T_PX (PX g) (PX g') nden)
      by first [exact LPX
               | apply HPX; subst nden; split; [lia | apply odd_5_4]].
    reflexivity.
  - destruct st as [[[sg nsign] nfrac] nf]. unfold body_g2, body_g24.
    cbv zeta.
    rewrite (rd_agree T_SI (SI g) (SI g') nfrac),
      (rd_agree T_F (F g) (F g') nf),
      (rd_agree T_F (F g) (F g') (nf + 1))
      by (try exact LF; try exact LSI; first [apply HF | apply HSI]; lia).
    reflexivity.
  - destruct st as [[[sg nsign] nfrac] nf]. unfold body_g4, body_g24.
    cbv zeta.
    rewrite (rd_agree T_SI (SI g) (SI g') nfrac),
      (rd_agree T_F (F g) (F g') nf),
      (rd_agree T_F (F g) (F g') (nf + 1))
      by (try exact LF; try exact LSI; first [apply HF | apply HSI]; lia).
    reflexivity.
Qed.

Lemma jbody_next (l : jloop) (g : globals) (t : jtabs) (ns : Z)
    (st st' : jstate l) :
  jindex_inv l ns st -> snd (jbody l g t ns st) = Ok st' ->
  jindex_inv l (ns + 1) st'.
Proof.
  intros HI E. destruct (jbody_cases l g t ns st) as [C|C].
  - rewrite C in E. destruct (jnan l (jacc l g t ns st)); [discriminate|].
    cbn [snd] in E. injection E as <-.
    destruct l; cbn [jstate jindex_inv jacc] in *.
    + destruct st as [[[? ?] nf] ?]. lia.
    + destruct st as [[[? ?] nf] ?]. lia.
    + destruct st as [[? ?] nden]. lia.
    + destruct st as [[? ?] nden]. lia.
    + destruct st as [[[? ?] nfrac] nf]. lia.
    + destruct st as [[[? ?] nfrac] nf]. lia.
  - rewrite E in C. discriminate.
Qed.

(** Two bodies that agree on the states an invariant describes give the
    same loop. *)
Lemma for_m_ext_inv {S : Type} (Inv : Z -> S -> Prop)
    (body body' : Z -> S -> M S) (lo hi : Z) (s : S) :
  Inv lo s ->
  (forall i s, lo <= i < hi -> Inv i s ->
     body i s = body' i s
     /\ forall s', snd (body i s) = Ok s' -> Inv (i + 1) s') ->
  for_range_m lo hi 1 body s = for_range_m lo hi 1 body' s.
Proof.
  intros H0 Hb. unfold for_range_m. generalize (trip_count lo hi 1).
  intros k.
  assert (forall (k : nat) (i : Z) (s : S),
             lo <= i -> Inv i s ->
             for_m k i hi 1 body s = for_m k i hi 1 body' s) as H.
  { clear k. induction k as [|k IH]; intros i s0 Hi HI; [reflexivity|].
    cbn [for_m]. destruct (i <? hi) eqn:E; [|reflexivity].
    apply Z.ltb_lt in E.
    destruct (Hb i s0) as [Eb Hn]; [lia | exact HI |].
    rewrite <- Eb. destruct (body i s0) as [ev [s1| |]]; cbn [bind];
      try reflexivity.
    rewrite IH; [reflexivity | lia | apply Hn; reflexivity]. }
  apply H; [lia | exact H0].
Qed.

Lemma jloop_frame (l : jloop) (g g' : globals) (t : jtabs) :
  agree_on_J_reads g g' ->
  for_range_m 0 Ns 1 (jbody l g t) (jinit l)
  = for_range_m 0 Ns 1 (jbody l g' t) (jinit l).
Proof.
  intros H. apply (for_m_ext_inv (jindex_inv l)).
  - destruct l; cbn; lia.
  - intros i s Hi HI. unfold Ns in Hi. split.
    + now apply jbody_frame.
    + intros s' E. now apply (jbody_next l g t i s).
Qed.

Lemma J_reads_stored (t : tbl) (n : Z) :
  J_reads t n -> Factorials_stores t n.
Proof. destruct t; cbn; intuition lia. Qed.

(** X3. The six loops of [J] depend on the global tables through
    [F[1..18]], [SI[2..17]] and the odd entries [PX[3..33]] only: on two
    states of the same sizes that agree there, every iteration of every
    loop (with the index variables as the loop has them) does the same,
    diagnostics included, and so does each loop run from its initial
    state.  Each of these entries is inside its array and is one the
    Table Builder stores to. *)
Theorem J_reads_what_Factorials_stores (l : jloop) (g g' g0 : globals)
    (t : jtabs) (ns : Z) (st : jstate l) (tb : tbl) (n : Z) :
  agree_on_J_reads g g' -> 0 <= ns < 8 -> jindex_inv l ns st ->
  jbody l g t ns st = jbody l g' t ns st
  /\ for_range_m 0 Ns 1 (jbody l g t) (jinit l)
     = for_range_m 0 Ns 1 (jbody l g' t) (jinit l)
  /\ (J_reads tb n -> In (tb, n) (assigned (Factorials g0)))
  /\ (J_reads tb n -> 0 <= n < declared_size tb).
Proof.
  intros H Hns HI. split; [now apply jbody_frame|].
  split; [now apply jloop_frame|]. split.
  - intros Hr. apply Factorials_assigned_iff. right.
    now apply J_reads_stored.
  - destruct tb; cbn; unfold Nf, Nsi; intuition lia.
Qed.

Lemma J_reads_what_Factorials_stores_witness :
  jbody L_g3 tables0 (J_tables libm0 5 2.5 0.25) 7 (0.5%float, 1, 33)
  = jbody L_g3 (store T_PX 35 7%float tables0)
      (J_tables libm0 5 2.5 0.25) 7 (0.5%float, 1, 33).
Proof.
  refine (proj1 (J_reads_what_Factorials_stores L_g3 tables0
                   (store T_PX 35 7%float tables0) globals0
                   (J_tables libm0 5 2.5 0.25) 7 (0.5%float, 1, 33)
                   T_F 1 _ _ _)); [| lia | reflexivity].
  generalize tables0. intros g. split.
  - cbn [store F SI PX]. now rewrite length_put.
  - intros t n H. destruct t; try contradiction; cbn [store table F SI PX];
      [reflexivity | reflexivity |].
    cbn [J_reads] in H. symmetry. apply at_put_ne; lia.
Defined.

(** ** More on the Table Builder *)

Lemma Factorials_keeps_coefficients (g0 : globals) :
  b (Factorials g0) = b g0 /\ c (Factorials g0) = c g0
  /\ d (Factorials g0) = d g0.
Proof.
  unfold Factorials.
  set (Inv := fun (_ : Z) g => b g = b g0 /\ c g = c g0 /\ d g = d g0).
  set (g1 := store T_F 0 1%float g0).
  set (g2 := for_range 1 Nf 1 _ g1).
  set (g3 := for_range 2 Nsi 1 _ g2).
  assert (Inv Nf g2) as H2.
  { subst g2. apply (for_range_inv Inv);
      [unfold Nf; lia | subst g1 Inv; cbn; auto |].
    intros i g _ H. exact H. }
  assert (Inv Nsi g3) as H3.
  { subst g3. apply (for_range_inv Inv); [unfold Nsi; lia | exact H2 |].
    intros i g _ H. exact H. }
  destruct (for_range_inv_step Inv
              (fun n g => store T_PX n (prod_xsq n) g) 1 (Nsi + 1) 2 g3)
    as (i & _ & H4); [lia | unfold Nsi; lia | exact H3 | | exact H4].
  intros i g _ H. exact H.
Qed.

(** X1. The Table Builder stores to [F[0..149]], to [SI[2..100]] and to
    the odd entries [PX[1..101]], and to nothing else: an entry is
    assigned after [Factorials] exactly when it was before or is one of
    these.  Every one of these stores is inside its array, and the
    coefficient tables [b], [c], [d] are left as they were. *)
Theorem Factorials_assigns (g0 : globals) (t : tbl) (n : Z) :
  (In (t, n) (assigned (Factorials g0))
   <-> In (t, n) (assigned g0) \/ Factorials_stores t n)
  /\ (Factorials_stores t n -> 0 <= n < declared_size t)
  /\ b (Factorials g0) = b g0 /\ c (Factorials g0) = c g0
  /\ d (Factorials g0) = d g0.
Proof.
  split; [apply Factorials_assigned_iff|].
  split; [|apply Factorials_keeps_coefficients].
  destruct t; cbn; unfold Nf, Nsi; intuition lia.
Qed.

Lemma builder_tables_ok_sound (g : globals) (t : tbl) (n : Z) :
  builder_tables_ok g = true -> Factorials_stores t n ->
  is_finite (table t g).[n] = true /\ (0 <? (table t g).[n])%float = true.
Proof.
  unfold builder_tables_ok. intros H Hs.
  apply andb_prop in H as [H H3]. apply andb_prop in H as [H1 H2].
  apply andb_prop.
  destruct t; cbn [Factorials_stores table] in *; try contradiction.
  - apply (forall_Zrange _ _ _ H1). unfold Nf. lia.
  - apply (forall_Zrange _ _ _ H2). unfold Nsi. lia.
  - destruct Hs as [Hn Ho].
    pose proof (forall_Zrange _ _ _ H3 n) as H. cbv beta in H.
    rewrite Ho in H. apply H. unfold Nsi. lia.
Qed.

Lemma tables0_ok : builder_tables_ok tables0 = true.
Proof. vm_compute. reflexivity. Qed.

(** X2. No entry of the tables overflows: every entry the Table Builder
    stores ([F[0..149]], [SI[2..100]], odd [PX[1..101]]) is a finite,
    strictly positive [double]. *)
Theorem builder_tables_finite (t : tbl) (n : Z) :
  Factorials_stores t n ->
  is_finite (table t tables0).[n] = true
  /\ (0 <? (table t tables0).[n])%float = true.
Proof.
  intros H. pose proof tables0_ok as Hok.
  generalize dependent tables0. intros g Hok.
  now apply builder_tables_ok_sound.
Qed.

Lemma builder_tables_finite_witness :
  is_finite (PX tables0).[101] = true
  /\ (0 <? (PX tables0).[101])%float = true.
Proof.
  refine (builder_tables_finite T_PX 101 _). split; [lia | reflexivity].
Defined.

Lemma tables0_F_exact : F_exact_ok (F tables0) = true.
Proof. vm_compute. reflexivity. Qed.

(** X4. The factorial table is exact up to [22!]: for [0 <= n <= 22]
    the entry [F[n]] holds the integer [n!] itself, with no rounding
    ([J] reads [F] up to index 18 only); [F[23]] is the first entry that
    is rounded. *)
Theorem Factorials_exact (n : Z) :
  0 <= n <= 22 ->
  float_Z (F tables0).[n] = Some (Zfact n)
  /\ float_Z (F tables0).[23] <> Some (Zfact 23).
Proof.
  intros Hn. pose proof tables0_F_exact as H.
  generalize dependent (F tables0). intros Ft H. unfold F_exact_ok in H.
  apply andb_prop in H as [H1 H2]. split.
  - pose proof (forall_Zrange _ _ _ H1 n) as H. cbv beta in H.
    unfold float_Z_is in H.
    destruct (float_Z Ft.[n]) as [y|]; [|discriminate H; lia].
    f_equal. apply Z.eqb_eq, H. lia.
  - intros E. unfold float_Z_is in H2. rewrite E, Z.eqb_refl in H2.
    discriminate.
Qed.

Lemma Factorials_exact_witness :
  float_Z (F tables0).[18] = Some 6402373705728000.
Proof.
  refine (proj1 (Factorials_exact 18 _)). lia.
Defined.

(** ** The output of the Reference Integrator *)

Lemma for_m_ext {S : Type} (body body' : Z -> S -> M S) (hi step : Z) :
  (forall i s, body i s = body' i s) ->
  forall (k : nat) (i : Z) (s : S),
    for_m k i hi step body s = for_m k i hi step body' s.
Proof.
  intros H. induction k as [|k IH]; intros i s; [reflexivity|].
  cbn [for_m]. destruct (i <? hi); [|reflexivity].
  rewrite H. apply bind_ext. intros s'. apply IH.
Qed.

Lemma CI_body_eq (L : libm) (p q : float) (i : Z) (mu_sum : complex) :
  CI_body L p q i mu_sum = (CI_plot L p q i, Ok (CI_acc L p q i mu_sum)).
Proof. reflexivity. Qed.

(** X5. [CI] prints, for each sample [i = 0..10000] in this order, two
    lines on the standard output: the abscissa [i * dmu] with the real
    part, then with the imaginary part, of the integrand there -- the
    very values it sums.  It prints nothing else (nothing on the error
    stream): ten items for each of the [CI_N + 1] samples. *)
Theorem CI_plot_output (L : libm) (p q : float) :
  fst (CI L p q) = flat_map (CI_plot L p q) (Zrange 0 (CI_N + 1))
  /\ Forall (fun e => fst e = Cout) (fst (CI L p q))
  /\ length (fst (CI L p q)) = (10 * Z.to_nat (CI_N + 1))%nat.
Proof.
  assert (fst (CI L p q) = flat_map (CI_plot L p q) (Zrange 0 (CI_N + 1)))
    as E.
  { unfold CI, for_range_m. rewrite trip_count_1.
    rewrite (for_m_events (fun _ _ => True) _ (CI_acc L p q)
               (CI_plot L p q) 0 (CI_N + 1));
      [| intros i s _ _; split; [apply CI_body_eq | exact I]
       | reflexivity | lia | exact I].
    rewrite bind_events_ok. cbn [ret fst]. apply app_nil_r. }
  rewrite E. split; [reflexivity|]. split.
  - apply Forall_flat_map, Forall_forall. intros i _.
    unfold CI_plot. cbv zeta. cbn [map]. repeat constructor.
  - rewrite (flat_map_constant_length (c := 10%nat)) by reflexivity.
    unfold Zrange. rewrite length_map, length_seq.
    replace (CI_N + 1 - 0) with (CI_N + 1) by lia. lia.
Qed.

(** X6. [CI(p, -q) = CI(p, q)], value and plot output, for a C library
    whose [cos] is even. *)
Theorem CI_even_in_q (L : libm) (p q : float) :
  (forall x, m_cos L (- x) = m_cos L x) ->
  CI L p (- q) = CI L p q.
Proof.
  intros Hcos. unfold CI, for_range_m.
  rewrite (for_m_ext (CI_body L p (- q)) (CI_body L p q)); [reflexivity|].
  intros i s. unfold CI_body. cbv zeta. now rewrite (mul_opp_l q), Hcos.
Qed.

Lemma CI_even_in_q_witness :
  CI libm0 0.5 (- 0.25) = CI libm0 0.5 0.25.
Proof.
  refine (CI_even_in_q libm0 0.5 0.25 _).
  intros x. cbn [libm0 m_cos]. now rewrite mul_opp_opp.
Defined.

(** ** The driver *)

Lemma bind_prefix {A B} (m : M A) (f : A -> M B) :
  exists rest, fst (bind m f) = fst m ++ rest.
Proof.
  destruct m as [l [a| |]]; cbn [bind fst].
  - destruct (f a) as [l' r']. now exists l'.
  - exists []. now rewrite app_nil_r.
  - exists []. now rewrite app_nil_r.
Qed.

Lemma bind_emit {B} (ch : chan) (ts : list tok) (f : unit -> M B) :
  bind (emit ch ts) f = (map (pair ch) ts ++ fst (f tt), snd (f tt)).
Proof. unfold emit. apply bind_events_ok. Qed.

(** X7. Whatever its arguments, [main] first runs [CI], which always
    returns, and only then calls [J], on the tables [Factorials] and
    [Coeffs] have built and with [p = 5], [q = 1] for a missing argument:
    the output of [main] begins with the plot data of [CI], then the line
    with [r] and the value of [CI] on the error stream, then what [J]
    prints. *)
Theorem main_trace (L : libm) (argv_p argv_q : option float) :
  let p := default 5%float argv_p in
  let q := default 1%float argv_q in
  let r := sqrt (p * p + q * q) in
  exists (Jc : complex) (rest : list event),
    snd (CI L p q) = Ok Jc
    /\ fst (main L argv_p argv_q)
       = fst (CI L p q)
         ++ map (pair Cerr) [Dbl r; sp; Dbl (real Jc); sp; Dbl (imag Jc); nl]
         ++ fst (J L (Coeffs L tables0) p q) ++ rest.
Proof.
  intros p q r. unfold main. fold p q. fold tables0.
  generalize (Coeffs L tables0). intros g.
  cbv zeta. fold r. clearbody r. clearbody p q.
  destruct (CI_returns L p q) as [Jc EJc].
  destruct (bind_prefix (J L g p q)
              (fun Jv =>
                 emit Cerr
                   [Dbl r; sp; Dbl (real Jv); sp; Dbl (imag Jv); nl] ;;;
                 Jve <- Je L g p q ;;
                 emit Cerr
                   [Dbl r; sp; Dbl (real Jve); sp; Dbl (imag Jve); nl] ;;;
                 cout [Str "n -1"; nl; Str "exec autoxy"; nl] ;;;
                 ret 0)) as [rest E].
  exists Jc, rest. split; [exact EJc|].
  destruct (CI L p q) as [evs rc]. cbn [snd] in EJc. subst rc.
  rewrite bind_events_ok. cbn [fst snd].
  unfold cerr. rewrite bind_emit. cbn [fst snd].
  rewrite E. reflexivity.
Qed.



(** ** More on the Coefficient Builder *)

Section CoeffsMore.

Variable L : libm.

Lemma Coeffs_lengths (g0 : globals) :
  length (b (Coeffs L g0)) = length (b g0)
  /\ length (c (Coeffs L g0)) = length (c g0)
  /\ length (d (Coeffs L g0)) = length (d g0).
Proof.
  unfold Coeffs.
  apply (for_range_inv
           (fun _ g => length (b g) = length (b g0)
                       /\ length (c g) = length (c g0)
                       /\ length (d g) = length (d g0)));
    [unfold Ne; lia | cbn [store b c d]; now rewrite !length_put |].
  intros i g _ (H1 & H2 & H3). unfold Coeffs_body. cbn [store b c d].
  now rewrite !length_put.
Qed.

(** X8. [Coeffs] changes nothing but [b], [c] and [d]: the tables [F],
    [SI], [PX] are as before; the three coefficient tables keep their
    sizes, and every store of [Coeffs] is inside its array. *)
Theorem Coeffs_frame (g0 : globals) (t : tbl) (n : Z) :
  (F (Coeffs L g0) = F g0 /\ SI (Coeffs L g0) = SI g0
   /\ PX (Coeffs L g0) = PX g0)
  /\ (length (b (Coeffs L g0)) = length (b g0)
      /\ length (c (Coeffs L g0)) = length (c g0)
      /\ length (d (Coeffs L g0)) = length (d g0))
  /\ (Coeffs_stores t n -> 0 <= n < declared_size t).
Proof.
  split; [apply Coeffs_keeps_tables|]. split; [apply Coeffs_lengths|].
  destruct t; cbn; unfold Ne; lia.
Qed.

(** The entries of the coefficient tables are fixed by the recurrences:
    two runs agree wherever both are seeded the same. *)
Lemma Coeffs_determined (g g' : globals) :
  coeff_lengths g -> coeff_lengths g' -> (c g).[1] = (c g').[1] ->
  forall (k : nat) (n : Z), 1 <= n <= 49 -> n <= Z.of_nat k ->
    (b (Coeffs L g)).[n] = (b (Coeffs L g')).[n]
    /\ (c (Coeffs L g)).[n] = (c (Coeffs L g')).[n]
    /\ (2 <= n -> (d (Coeffs L g)).[n] = (d (Coeffs L g')).[n]).
Proof.
  intros Hl Hl' Hc1.
  destruct (Coeffs_inv_final L g Hl)
    as (_ & (S1 & S2 & S3 & S4) & C1 & _ & Hrec).
  destruct (Coeffs_inv_final L g' Hl')
    as (_ & (S1' & S2' & S3' & S4') & C1' & _ & Hrec').
  induction k as [|k IH]; intros n Hn Hk; [lia|].
  destruct (Z.eq_dec n 1) as [->|N1].
  { rewrite S1, S1', C1, C1'. split; [reflexivity|]. split; [exact Hc1 | lia]. }
  destruct (Z.eq_dec n 2) as [->|N2].
  { rewrite S4, S4', S2, S2', S3, S3'. auto. }
  destruct (Hrec n) as (Rb & Rc & Rd); [unfold Ne; lia|].
  destruct (Hrec' n) as (Rb' & Rc' & Rd'); [unfold Ne; lia|].
  destruct (IH (n - 2)) as (Eb & Ec & _); [lia | lia |].
  rewrite Rd, Rd', Rb, Rb', Rc, Rc', Eb, Ec. auto.
Qed.

(** X9. What [Coeffs] leaves in [b[1..49]], [c[1..49]] and [d[2..49]]
    does not depend on what the arrays held before, except through the
    never-seeded [c[1]]: two runs on arrays of the declared size with the
    same [c[1]] leave the same entries.  In particular a second run of
    [Coeffs] changes none of them. *)
Theorem Coeffs_overwrites (g g' : globals) (n : Z) :
  coeff_lengths g -> coeff_lengths g' -> (c g).[1] = (c g').[1] ->
  1 <= n <= 49 ->
  ((b (Coeffs L g)).[n] = (b (Coeffs L g')).[n]
   /\ (c (Coeffs L g)).[n] = (c (Coeffs L g')).[n]
   /\ (2 <= n -> (d (Coeffs L g)).[n] = (d (Coeffs L g')).[n]))
  /\ ((b (Coeffs L (Coeffs L g))).[n] = (b (Coeffs L g)).[n]
      /\ (c (Coeffs L (Coeffs L g))).[n] = (c (Coeffs L g)).[n]
      /\ (2 <= n ->
          (d (Coeffs L (Coeffs L g))).[n] = (d (Coeffs L g)).[n])).
Proof.
  intros Hl Hl' Hc1 Hn. split.
  - apply (Coeffs_determined g g' Hl Hl' Hc1 (Z.to_nat n)); lia.
  - apply (Coeffs_determined (Coeffs L g) g) with (k := Z.to_nat n);
      try lia; try assumption.
    + apply (Coeffs_inv_final L g Hl).
    + exact (proj1 (Coeffs_keeps_index_1 L g)).
Qed.

End CoeffsMore.

Lemma Coeffs_overwrites_witness :
  (b (Coeffs libm0 tables0)).[7]
  = (b (Coeffs libm0 (store T_b 5 7%float tables0))).[7].
Proof.
  refine (proj1 (proj1 (Coeffs_overwrites libm0 tables0
                          (store T_b 5 7%float tables0) 7 _ _ _ _)));
    try (vm_compute; intuition congruence).
Defined.

(** *** The signs of [b] *)

Lemma libm0_pow_sign :
  m_pow libm0 (-1) 0 = 1%float /\ m_pow libm0 (-1) 1 = (-1)%float.
Proof. vm_compute. auto. Qed.

(** With [pow(-1, 0) = 1] and [pow(-1, 1) = -1] the table [b] is the
    same for every C library. *)
Lemma b_table_ieee (L : libm) (g0 : globals) :
  m_pow L (-1) 0 = 1%float -> m_pow L (-1) 1 = (-1)%float ->
  coeff_lengths g0 ->
  forall (k : nat) (n : Z), 1 <= n <= 49 -> n <= Z.of_nat k ->
    (b (Coeffs L g0)).[n] = (b (Coeffs libm0 tables0)).[n].
Proof.
  intros P0 P1 Hl. destruct libm0_pow_sign as [Q0 Q1].
  destruct (Coeffs_inv_final L g0 Hl) as (_ & (S1 & S2 & _) & _ & _ & Hrec).
  destruct (Coeffs_inv_final libm0 tables0 tables0_coeff_lengths)
    as (_ & (S1' & S2' & _) & _ & _ & Hrec').
  generalize dependent (Coeffs libm0 tables0). intros g' S1' S2' Hrec'.
  induction k as [|k IH]; intros n Hn Hk; [lia|].
  destruct (Z.eq_dec n 1) as [->|N1]; [now rewrite S1, S1'|].
  destruct (Z.eq_dec n 2) as [->|N2]; [now rewrite S2, S2'|].
  destruct (Hrec n) as (Rb & _); [unfold Ne; lia|].
  destruct (Hrec' n) as (Rb' & _); [unfold Ne; lia|].
  rewrite Rb, Rb', (IH (n - 2)) by lia.
  assert (((n + 1) / 2) mod 2 = 0 \/ ((n + 1) / 2) mod 2 = 1) as [-> | ->]
    by (pose proof (Z.mod_pos_bound ((n + 1) / 2) 2); lia).
  - change (d_of_int 0) with 0%float. now rewrite P0, Q0.
  - change (d_of_int 1) with 1%float. now rewrite P1, Q1.
Qed.

Lemma libm0_b_table_ok : b_table_ok (b (Coeffs libm0 tables0)) = true.
Proof. vm_compute. reflexivity. Qed.

(** X10. For a C library with [pow(-1, 0) = 1] and [pow(-1, 1) = -1], the
    corrected sign formula makes [b[n]] positive for [n = 1..4], negative
    for [n = 5..8], and so on in blocks of four up to [n = 49]; no entry
    is zero or not-a-number, and the magnitudes decrease strictly. *)
Theorem b_sign_pattern (L : libm) (g0 : globals) (n : Z) :
  m_pow L (-1) 0 = 1%float -> m_pow L (-1) 1 = (-1)%float ->
  coeff_lengths g0 -> 1 <= n <= 49 ->
  (0 <? (b (Coeffs L g0)).[n])%float = b_positive n
  /\ ((b (Coeffs L g0)).[n] <? 0)%float = negb (b_positive n)
  /\ (n < 49 ->
      (abs (b (Coeffs L g0)).[n + 1] <? abs (b (Coeffs L g0)).[n])%float
      = true).
Proof.
  intros P0 P1 Hl Hn.
  rewrite (b_table_ieee L g0 P0 P1 Hl (Z.to_nat n) n) by lia.
  assert (n < 49 ->
          (b (Coeffs L g0)).[n + 1] = (b (Coeffs libm0 tables0)).[n + 1])
    as E by (intros H; apply (b_table_ieee L g0 P0 P1 Hl (Z.to_nat (n + 1)));
             lia).
  pose proof libm0_b_table_ok as Hok.
  generalize dependent (b (Coeffs libm0 tables0)). intros bt E Hok.
  unfold b_table_ok in Hok.
  assert (1 <= n < Ne) as Hr by (unfold Ne; lia).
  pose proof (forall_Zrange _ _ _ Hok n Hr) as H. unfold b_entry_ok in H.
  apply andb_prop in H as [H H3].
  apply andb_prop in H as [H1 H2].
  apply Bool.eqb_prop in H1, H2.
  split; [exact H1|]. split; [exact H2|].
  intros Hlt. rewrite (E Hlt).
  destruct (49 <=? n) eqn:E49; [apply Z.leb_le in E49; lia | exact H3].
Qed.

Lemma b_sign_pattern_witness :
  ((b (Coeffs libm0 tables0)).[7] <? 0)%float = true.
Proof.
  refine (proj1 (proj2 (b_sign_pattern libm0 tables0 7 _ _ _ _)));
    [apply libm0_pow_sign | apply libm0_pow_sign
     | exact tables0_coeff_lengths | lia].
Defined.

(** ** The evaluators at degenerate arguments *)

Ltac nan_through :=
  repeat first [rewrite mul_nan_l | rewrite mul_nan_r | rewrite sub_nan_r
               | rewrite add_nan_l | rewrite sub_nan_l | rewrite add_nan_r].

(** X11. At the origin, [p = q = 0], [Je] returns not-a-number in both
    parts, for every C library with [log(0) = -inf] and
    [pow(0, 2) = pow(0, 4) = 0]: the logarithmic terms are
    [infinity * 0]. *)
Theorem Je_at_origin_nan (L : libm) (g0 : globals) :
  coeff_lengths g0 ->
  m_log L 0 = neg_infinity ->
  m_pow L 0 (d_of_int 2) = 0%float -> m_pow L 0 (d_of_int 4) = 0%float ->
  snd (Je L (Coeffs L g0) 0 0) = Ok (Cx nan nan).
Proof.
  intros Hl Hlog Hp2 Hp4.
  destruct (Coeffs_inv_final L g0 Hl) as (_ & (_ & _ & S3 & _) & _ & _ & Hrec).
  destruct (Hrec 4) as (_ & Rc4 & _); [unfold Ne; lia|].
  replace (4 - 2) with 2 in Rc4 by lia. rewrite S3 in Rc4.
  generalize dependent (Coeffs L g0). intros g S3 _ Rc4.
  rewrite Je_eq. cbv zeta. cbn [snd].
  change (sqrt (0 * 0 + 0 * 0))%float with 0%float.
  rewrite Hlog. f_equal. f_equal.
  - unfold Je_P. cbv zeta. rewrite S3, (Je_ap L 0 _ 2), Hp2 by lia.
    change ((1.3659315 - neg_infinity) * 0)%float with nan.
    nan_through. reflexivity.
  - unfold Je_Q. cbv zeta. rewrite Rc4, (Je_ap L 0 _ 4), Hp4 by lia.
    change ((1.3659315 + 1 / d_of_int 4 + 1 / d_of_int (4 + 2)
             - neg_infinity) * 0)%float with nan.
    nan_through. reflexivity.
Qed.

Lemma Je_at_origin_nan_witness :
  snd (Je libm0 (Coeffs libm0 tables0) 0 0) = Ok (Cx nan nan).
Proof.
  refine (Je_at_origin_nan libm0 tables0 _ _ _ _);
    [exact tables0_coeff_lengths | | |]; vm_compute; reflexivity.
Defined.

Lemma tables0_PX_exact : PX_exact_ok (PX tables0) = true.
Proof. vm_compute. reflexivity. Qed.

(** X14. The table of odd-square products is exact up to index 17: for
    odd [n <= 17] the entry [PX[n]] holds the integer
    [n * (3 * 5 * ... * (n-2))^2] itself; [PX[19]] is the first entry
    that is rounded ([J] reads [PX] up to index 33). *)
Theorem PX_exact (n : Z) :
  1 <= n <= 17 -> Z.odd n = true ->
  float_Z (PX tables0).[n] = Some (Zprod_xsq n)
  /\ float_Z (PX tables0).[19] <> Some (Zprod_xsq 19).
Proof.
  intros Hn Ho. pose proof tables0_PX_exact as H.
  generalize dependent (PX tables0). intros PXt H. unfold PX_exact_ok in H.
  apply andb_prop in H as [H1 H2]. split.
  - pose proof (forall_Zrange _ _ _ H1 n) as H. cbv beta in H.
    rewrite Ho in H. unfold float_Z_is in H. cbn [negb orb] in H.
    destruct (float_Z PXt.[n]) as [y|]; [|discriminate H; lia].
    f_equal. apply Z.eqb_eq, H. lia.
  - intros E. unfold float_Z_is in H2. rewrite E, Z.eqb_refl in H2.
    discriminate.
Qed.

Lemma PX_exact_witness :
  float_Z (PX tables0).[5] = Some 45.
Proof.
  refine (proj1 (PX_exact 5 _ _)); [lia | reflexivity].
Defined.

Lemma nan_tabs_lengths : jtabs_lengths nan_tabs.
Proof. vm_compute. auto. Qed.

Lemma jbody_in_range_witness :
  faulted (snd (jbody L_g3 tables0 nan_tabs 7 (0%float, 1, 33))) = false.
Proof.
  refine (proj1 (jbody_in_range L_g3 tables0 nan_tabs 7 (0%float, 1, 33)
                   tables0_lengths nan_tabs_lengths _ _ _));
    [lia | cbn; lia | reflexivity].
Defined.

Lemma Je_even_in_q_witness :
  Je libm0 (Coeffs libm0 tables0) 0.5 (- 0.25)
  = Je libm0 (Coeffs libm0 tables0) 0.5 0.25.
Proof.
  refine (Je_even_in_q libm0 _ _ _ (Coeffs libm0 tables0) 0.5 0.25);
    cbn [libm0 m_atan2 m_cos m_sin]; intros.
  - apply mul_opp_l.
  - now rewrite mul_opp_opp.
  - now rewrite mul_opp_opp, mul_opp_l.
Defined.
